(** * agent-kit: the Agent hierarchy and the Network orchestrator

    A shallow embedding of [src/index.ts]: the [Agent] base class with its
    two variants [TextAgent] and [ObjectAgent], and the [Network] class
    (registry, agent inference, parameter merge, dispatch and aggregation).

    JavaScript strings are sequences of UTF-16 code units, JavaScript
    objects used as option bags are finite maps from property names to
    values, and agents are mutable objects referenced from the registry,
    so they live in a store indexed by locations. *)

From Stdlib Require Import ZArith NArith Ascii String.
From stdpp Require Import base option list functions gmap.

Local Open Scope N_scope.

(** ** Strings *)

Module JsString.

(** A string is the list of its UTF-16 code units. *)
Definition code_unit := N.
Definition jsstring := list code_unit.

(** The code units of an ASCII literal. *)
Definition lit (s : string) : jsstring :=
  N_of_ascii <$> list_ascii_of_string s.

(** White space and line terminators of ECMAScript, the characters
    [String.prototype.trim] removes. *)
Definition isWhiteSpace (c : code_unit) : bool :=
  (9 <=? c) && (c <=? 13)
  || (c =? 32) || (c =? 160) || (c =? 5760)
  || (8192 <=? c) && (c <=? 8202)
  || (c =? 8232) || (c =? 8233) || (c =? 8239) || (c =? 8287)
  || (c =? 12288) || (c =? 65279).

Fixpoint trimStart (s : jsstring) : jsstring :=
  match s with
  | [] => []
  | c :: s' => if isWhiteSpace c then trimStart s' else s
  end.

Definition trimEnd (s : jsstring) : jsstring :=
  reverse (trimStart (reverse s)).

(** [s.trim()] *)
Definition trim (s : jsstring) : jsstring := trimEnd (trimStart s).

(** [s.split(sep)] for a separator of one code unit and no limit: the
    substrings between the occurrences of [sep], in order. [cur] holds,
    reversed, the code units read since the last separator. *)
Fixpoint split_from (sep : code_unit) (cur : jsstring) (s : jsstring)
  : list jsstring :=
  match s with
  | [] => [reverse cur]
  | c :: s' =>
      if c =? sep then reverse cur :: split_from sep [] s'
      else split_from sep (c :: cur) s'
  end.

Definition split (sep : code_unit) (s : jsstring) : list jsstring :=
  split_from sep [] s.

(** [parts.join(sep)] *)
Fixpoint join (sep : jsstring) (parts : list jsstring) : jsstring :=
  match parts with
  | [] => []
  | [p] => p
  | p :: ps => p ++ sep ++ join sep ps
  end.

Definition comma : code_unit := 44.
Definition quote : code_unit := 34.
Definition newline : code_unit := 10.

End JsString.
Export JsString.

(** ** Values and option bags *)

(** The JavaScript values an option bag holds. Model references, schema
    descriptors and tool sets are opaque objects, told apart by a
    reference. Numbers are the integral ones. *)
Inductive value :=
| VUndefined
| VNull
| VBool (b : bool)
| VNum (n : Z)
| VStr (s : jsstring)
| VObj (ref : N).

#[global] Instance value_eq_dec : EqDecision value.
Proof. solve_decision. Defined.

(** [ToBoolean]: what [!v] and [v || w] test. *)
Definition truthy (v : value) : bool :=
  match v with
  | VUndefined | VNull => false
  | VBool b => b
  | VNum n => negb (n =? 0)%Z
  | VStr s => negb (bool_decide (s = []))
  | VObj _ => true
  end.

(** [v || w] *)
Definition js_or (v w : value) : value := if truthy v then v else w.

(** An object literal used as an option bag: its own properties. *)
Abbreviation params := (gmap jsstring value).

(** [o.k]: reading a property that is absent gives [undefined]. *)
Definition prop (o : params) (k : jsstring) : value :=
  default VUndefined (o !! k).

(** [{ ...o, ...patch }] *)
Definition spread (o patch : params) : params := patch ∪ o.

Definition k_prompt : jsstring := lit "prompt".
Definition k_model : jsstring := lit "model".
Definition k_schema : jsstring := lit "schema".
Definition k_maxTokens : jsstring := lit "maxTokens".


(** ** The JavaScript [Map] of the registry *)

(** A [Map] with string keys keeps its entries in insertion order; [set]
    on a key that is present replaces the value in place. *)
Module JsMap.

Definition t (V : Type) := list (jsstring * V).

Definition empty {V} : t V := [].

Fixpoint get {V} (k : jsstring) (m : t V) : option V :=
  match m with
  | [] => None
  | (k', v) :: m' => if decide (k = k') then Some v else get k m'
  end.

Fixpoint set {V} (k : jsstring) (v : V) (m : t V) : t V :=
  match m with
  | [] => [(k, v)]
  | (k', v') :: m' =>
      if decide (k = k') then (k, v) :: m' else (k', v') :: set k v m'
  end.

Definition keys {V} (m : t V) : list jsstring := fst <$> m.

End JsMap.

(** ** Agents *)

Inductive agent_kind := TextAgent | ObjectAgent.

#[global] Instance agent_kind_eq_dec : EqDecision agent_kind.
Proof. solve_decision. Defined.

(** An agent object: its class and its [parameters] field. *)
Record Agent := mkAgent { kind : agent_kind; parameters : params }.

(** [this.parameters = { ...this.parameters, ...parameters }] *)
Definition setParameters (patch : params) (a : Agent) : Agent :=
  {| kind := kind a; parameters := spread (parameters a) patch |}.

(** The three failures of the library. The code throws plain [Error]s;
    [message] gives their texts. A call of [Network.execute] can also fail
    with what the caller's [streamCallback] throws: [CallbackThrew] stands
    for that value, whatever it is. *)
Inductive error :=
| MissingParameter (k : agent_kind)
| AgentNotRegistered (agentName : jsstring)
| NoApplicableAgents
| CallbackThrew.

#[global] Instance error_eq_dec : EqDecision error.
Proof. solve_decision. Defined.

Definition message (e : error) : jsstring :=
  match e with
  | MissingParameter TextAgent => lit "Both prompt and model must be provided"
  | MissingParameter ObjectAgent =>
      lit "Both prompt, schema and model must be provided"
  | AgentNotRegistered agentName =>
      lit "Agent " ++ [quote] ++ agentName ++ [quote] ++ lit " not registered."
  | NoApplicableAgents =>
      lit "No applicable agents found for the given prompt."
  | CallbackThrew => []
  end.

(** The four operations of the generation library, and a call of one of
    them with the option bag it was given. *)
Inductive capability := GenerateText | StreamText | GenerateObject | StreamObject.

#[global] Instance capability_eq_dec : EqDecision capability.
Proof. solve_decision. Defined.

Record call := Call { cap : capability; args : params }.

(** Agents are objects shared between the caller and the registry: the
    store maps a location to the agent it holds. *)
Abbreviation loc := nat.
Abbreviation heap := (loc → Agent).

(** [new Network({ defaultModel })]: the registry and the default model,
    [VUndefined] when none was given. *)
Record Network := mkNetwork {
  agents : JsMap.t loc;
  defaultModel : value
}.

(** [registerAgent(name, agent)] *)
Definition registerAgent (name : jsstring) (agent : loc) (net : Network)
  : Network :=
  {| agents := JsMap.set name agent (agents net);
     defaultModel := defaultModel net |}.

(** What a call of the caller's [streamCallback] on a fragment does, as
    far as [Network.execute] can tell: it returns (the value is dropped),
    or it throws. [streamCallback] has type [(text: string) => void]
    and is embedded as a function of the fragment: what it does is taken
    to depend on the fragment it is given, not on the calls made before,
    whose order across the streams of a concurrent batch the code does not
    fix. *)
Inductive completion := Returns | Throws.

(** The options of [Network.execute]; a field left out is [None]. *)
Record ExecuteParams := mkExecuteParams {
  multipleAgents : option bool;
  stream : option bool;
  streamCallback : option (jsstring → completion)
}.

(** [for await (const textPart of textStream) streamCallback?.(textPart)]:
    the arguments of the successive calls of the callback, and whether the
    loop reached the end of the stream. Without a callback every fragment
    is read and nothing is called. A call that throws ends the loop: the
    fragments after it are not passed on. *)
Fixpoint drain (streamCallback : option (jsstring → completion))
    (textStream : list jsstring) : list jsstring * bool :=
  match textStream with
  | [] => ([], true)
  | textPart :: rest =>
      match streamCallback with
      | None => drain streamCallback rest
      | Some callback =>
          match callback textPart with
          | Returns =>
              let '(invoked, finished) := drain streamCallback rest in
              (textPart :: invoked, finished)
          | Throws => ([textPart], false)
          end
      end
  end.

(** The prompt of the selection call. *)
Definition inferencePrompt (names : list jsstring) (prompt : jsstring)
    (multipleAgents : bool) : jsstring :=
  [newline]
  ++ lit "      You are tasked with determining which agents should be used to handle a user's request."
  ++ [newline]
  ++ lit "      Available agents: " ++ join (lit ", ") names ++ lit "."
  ++ [newline]
  ++ lit "      User prompt: " ++ [quote] ++ prompt ++ [quote]
  ++ [newline]
  ++ lit "      Should multiple agents be used? "
  ++ (if multipleAgents then lit "Yes" else lit "No") ++ lit "."
  ++ [newline]
  ++ lit "      Return the agent names that should be used as a comma-separated list."
  ++ [newline]
  ++ lit "    ".

(** [text.trim().split(",").map((name) => name.trim())] *)
Definition parseAgentNames (text : jsstring) : list jsstring :=
  trim <$> split comma (trim text).

(** The keys an agent needs at execution time, by its class. *)
Definition required (k : agent_kind) : list jsstring :=
  match k with
  | TextAgent => [k_prompt; k_model]
  | ObjectAgent => [k_prompt; k_schema; k_model]
  end.

(** The string has no white space at its start, at its end. *)
Definition clean_start (s : jsstring) : bool :=
  match s with
  | [] => true
  | c :: _ => negb (isWhiteSpace c)
  end.

Definition clean_end (s : jsstring) : bool := clean_start (reverse s).

(** The number of commas of a string. *)
Definition commas (s : list code_unit) : nat :=
  length (filter (λ c, c = comma) s).

(** ** A scripted generation library

    A stand-in for the external library, used to run the model on concrete
    networks: the selection call (the one with [maxTokens: 50]) answers
    [reply]; any other text call answers with the prompt it was given; a
    stream yields the same text one code unit at a time. *)
Module Scripted.

Definition text_of (r : jsstring) : jsstring := r.

Definition prompt_of (p : params) : jsstring :=
  match prop p k_prompt with
  | VStr s => s
  | _ => []
  end.

Definition generateText (reply : jsstring) (p : params) : jsstring :=
  if decide (p !! k_maxTokens = Some (VNum 50)) then reply
  else lit "re: " ++ prompt_of p.

Definition streamText (reply : jsstring) (p : params) : list jsstring :=
  (λ c, [c]) <$> generateText reply p.

Definition generateObject (p : params) : params :=
  {[ lit "name" := VStr (prompt_of p) ]}.

Definition streamObject (p : params) : list jsstring :=
  [lit "{"; lit "name"; lit "}"].

Definition openai (name : jsstring) : value := VObj 1.

(** A callback that takes every fragment, and one that throws when it
    is given the fragment [":"]. *)
Definition print (textPart : jsstring) : completion := Returns.


(** Two model references and a schema descriptor. *)
Definition M1 : value := VObj 11.
Definition M2 : value := VObj 12.
Definition schema : value := VObj 20.

(** A store with a text agent that has its own model and a system
    text at location 0, a text agent without parameters at 1, an
    object agent with a schema at 2, and a text agent whose prompt is
    the empty string at 3. *)
Definition agent0 : Agent :=
  mkAgent TextAgent {[ k_model := M1; lit "system" := VStr (lit "be brief") ]}.
Definition agent1 : Agent := mkAgent TextAgent ∅.
Definition agent2 : Agent := mkAgent ObjectAgent {[ k_schema := schema ]}.
Definition agent3 : Agent :=
  mkAgent TextAgent {[ k_prompt := VStr []; k_model := M1 ]}.

(** A text agent with a prompt and a model, not in the store. *)
Definition agent4 : Agent :=
  mkAgent TextAgent {[ k_prompt := VStr (lit "hi"); k_model := M1 ]}.

Definition store0 : heap :=
  λ l, match l with
       | 0%nat => agent0
       | 1%nat => agent1
       | 2%nat => agent2
       | _ => agent3
       end.

(** A network with default model [M2] and the agents [a], [b] and
    [form] registered in this order. *)
Definition net0 : Network :=
  registerAgent (lit "form") 2%nat
    (registerAgent (lit "b") 1%nat
       (registerAgent (lit "a") 0%nat (mkNetwork JsMap.empty M2))).

(** The same registry without a default model. *)
Definition net1 : Network := mkNetwork (agents net0) VUndefined.

End Scripted.

Section Orchestrator.

(** The generation library is external. A call of it is a function of
    the option bag it receives; the model covers the runs in which its
    calls complete. [text_of] reads the [text] of a text result, and a
    stream is the finite sequence of the fragments of its [textStream].
    [openai] builds a model reference from a model name. *)
Context {TextResult ObjectResult : Type}.
Variable text_of : TextResult → jsstring.
Variable generateText : params → TextResult.
Variable streamText : params → list jsstring.
Variable generateObject : params → ObjectResult.
Variable streamObject : params → list jsstring.
Variable openai : jsstring → value.

(** What [execute] of an agent resolves to. *)
Inductive output :=
| OutText (r : TextResult)
| OutObject (r : ObjectResult).

(** *** TextAgent *)

Definition TextAgent_execute (a : Agent) : list call * (error + output) :=
  let prompt := prop (parameters a) k_prompt in
  let model := prop (parameters a) k_model in
  if negb (truthy prompt) || negb (truthy model)
  then ([], inl (MissingParameter TextAgent))
  else ([Call GenerateText (parameters a)],
        inr (OutText (generateText (parameters a)))).

Definition TextAgent_stream (a : Agent)
  : list call * (error + list jsstring) :=
  let prompt := prop (parameters a) k_prompt in
  let model := prop (parameters a) k_model in
  if negb (truthy prompt) || negb (truthy model)
  then ([], inl (MissingParameter TextAgent))
  else ([Call StreamText (parameters a)], inr (streamText (parameters a))).

(** *** ObjectAgent *)

Definition validateParameters (a : Agent) : option error :=
  let prompt := prop (parameters a) k_prompt in
  let schema := prop (parameters a) k_schema in
  let model := prop (parameters a) k_model in
  if negb (truthy prompt) || negb (truthy schema) || negb (truthy model)
  then Some (MissingParameter ObjectAgent)
  else None.

Definition ObjectAgent_execute (a : Agent)
  : list call * (error + output) :=
  match validateParameters a with
  | Some e => ([], inl e)
  | None => ([Call GenerateObject (parameters a)],
             inr (OutObject (generateObject (parameters a))))
  end.

Definition ObjectAgent_stream (a : Agent)
  : list call * (error + list jsstring) :=
  match validateParameters a with
  | Some e => ([], inl e)
  | None => ([Call StreamObject (parameters a)],
             inr (streamObject (parameters a)))
  end.

(** [agent.execute()] and [agent.stream()], by the class of the agent:
    the calls of the generation library made, and the error thrown or
    the value produced. *)
Definition Agent_execute (a : Agent) : list call * (error + output) :=
  match kind a with
  | TextAgent => TextAgent_execute a
  | ObjectAgent => ObjectAgent_execute a
  end.

Definition Agent_stream (a : Agent) : list call * (error + list jsstring) :=
  match kind a with
  | TextAgent => TextAgent_stream a
  | ObjectAgent => ObjectAgent_stream a
  end.

(** *** Network *)

(** [inferAgents]: the selection call and the names read from its text. *)
Definition inferAgents (net : Network) (prompt : jsstring)
    (multipleAgents : bool) : call * list jsstring :=
  let inferencePrompt :=
    inferencePrompt (JsMap.keys (agents net)) prompt multipleAgents in
  let options : params :=
    {[ k_model :=
         js_or (defaultModel net) (openai (lit "gpt-4o-2024-11-20"));
       k_prompt := VStr inferencePrompt;
       k_maxTokens := VNum 50 ]} in
  let result := generateText options in
  let text := text_of result in
  (Call GenerateText options, parseAgentNames text).

(** How the promise of one [executeAgent] call settles. [executeAgent]
    is an async function: its body runs at the call up to its first
    [await]. An error thrown before that ([Thrown]: the missing registry
    entry, and the check of [stream()], which is not async) leaves the
    promise rejected when the call returns. The check of [execute()]
    runs inside an async method, so its error reaches [executeAgent]
    through the [await], one job later ([Rejected]). Otherwise the
    stream is drained into the callback ([Streamed]), or the output is
    put in the result map ([Stored]). A callback that throws while the
    stream is drained ends the loop and rejects the promise with what it
    threw ([Interrupted], with the arguments of the calls made). *)
Inductive settled :=
| Thrown (e : error)
| Rejected (e : error)
| Streamed (invoked : list jsstring)
| Stored (out : output)
| Interrupted (invoked : list jsstring).

(** One [executeAgent] call: the name dispatched, the calls of the
    generation library it made, and how it settled. *)
Record task := mkTask {
  task_name : jsstring;
  task_calls : list call;
  task_end : settled
}.

Definition executeAgent (net : Network) (prompt : jsstring)
    (stream : bool) (streamCallback : option (jsstring → completion))
    (agentName : jsstring) (h : heap)
  : task * heap :=
  match JsMap.get agentName (agents net) with
  | None => (mkTask agentName [] (Thrown (AgentNotRegistered agentName)), h)
  | Some l =>
      let agent := h l in
      let agent :=
        setParameters
          {[ k_prompt := VStr prompt;
             k_model :=
               js_or (prop (parameters agent) k_model) (defaultModel net) ]}
          agent in
      let h := <[ l := agent ]> h in
      if stream then
        match Agent_stream agent with
        | (cs, inl e) => (mkTask agentName cs (Thrown e), h)
        | (cs, inr textStream) =>
            match drain streamCallback textStream with
            | (invoked, true) => (mkTask agentName cs (Streamed invoked), h)
            | (invoked, false) =>
                (mkTask agentName cs (Interrupted invoked), h)
            end
        end
      else
        match Agent_execute agent with
        | (cs, inl e) => (mkTask agentName cs (Rejected e), h)
        | (cs, inr output) => (mkTask agentName cs (Stored output), h)
        end
  end.

(** [agentNames.map(executeAgent)]: the calls are made one after the
    other, each running up to its first [await], so the parameter
    updates happen in the order of the names. *)
Fixpoint map_executeAgent (net : Network) (prompt : jsstring)
    (stream : bool) (streamCallback : option (jsstring → completion))
    (agentNames : list jsstring) (h : heap)
  : list task * heap :=
  match agentNames with
  | [] => ([], h)
  | agentName :: rest =>
      let '(t, h) := executeAgent net prompt stream streamCallback agentName h in
      let '(ts, h) := map_executeAgent net prompt stream streamCallback rest h in
      (t :: ts, h)
  end.

Definition thrown (t : task) : option error :=
  match task_end t with Thrown e => Some e | _ => None end.

Definition rejected (t : task) : option error :=
  match task_end t with
  | Rejected e => Some e
  | Interrupted _ => Some CallbackThrew
  | _ => None
  end.

(** [await executeAgent(name)]: the error of the task, if it has one. *)
Definition awaited (t : task) : option error :=
  match task_end t with
  | Thrown e | Rejected e => Some e
  | Interrupted _ => Some CallbackThrew
  | _ => None
  end.

(** [await Promise.all(executionPromises)] rejects with the first
    rejection it is notified of: a promise already rejected when
    [Promise.all] subscribes, the first of them in the order of the
    array, before any promise rejected later. The failed checks of
    [execute()] are notified in the order of the array. Streams interrupted
    by the callback reject in an order the model does not fix: they all
    carry [CallbackThrew], and a call has no other late rejection beside
    them, since a streaming call has no [Rejected] task. *)
Definition Promise_all (ts : list task) : option error :=
  match head (omap thrown ts) with
  | Some e => Some e
  | None => head (omap rejected ts)
  end.

(** [result.set(agentName, output)] of the tasks that stored an output.
    A name dispatched twice is set twice, to the same output. *)
Definition result_of (ts : list task) : gmap jsstring output :=
  foldl (λ result t,
           match task_end t with
           | Stored output => <[ task_name t := output ]> result
           | _ => result
           end) ∅ ts.

(** What a caller can observe of one [Network.execute]: the selection
    call, the tasks dispatched, the store afterwards, and the error the
    call rejects with or the result map it resolves to. *)
Record run := mkRun {
  inference : call;
  tasks : list task;
  store : heap;
  outcome : error + gmap jsstring output
}.

Definition settle (e : option error) (ts : list task)
  : error + gmap jsstring output :=
  match e with
  | Some e => inl e
  | None => inr (result_of ts)
  end.

Definition execute (net : Network) (prompt : jsstring)
    (params : ExecuteParams) (h : heap) : run :=
  let multipleAgents := default false (multipleAgents params) in
  let stream := default false (stream params) in
  let streamCallback := streamCallback params in
  let '(inference, agentNames) := inferAgents net prompt multipleAgents in
  if (length agentNames =? 0)%nat
  then mkRun inference [] h (inl NoApplicableAgents)
  else if negb multipleAgents then
    match agentNames !! 0%nat with
    | Some agentName =>
        let '(t, h) :=
          executeAgent net prompt stream streamCallback agentName h in
        mkRun inference [t] h (settle (awaited t) [t])
    | None =>
        (* agentNames[0] is undefined, which no key of the registry is *)
        let agentName := lit "undefined" in
        mkRun inference
              [mkTask agentName [] (Thrown (AgentNotRegistered agentName))]
              h (inl (AgentNotRegistered agentName))
    end
  else
    let '(ts, h) :=
      map_executeAgent net prompt stream streamCallback agentNames h in
    mkRun inference ts h (settle (Promise_all ts) ts).

(** ** Notions used in the statements *)

(** The values of all the keys [ks] are truthy. *)
Definition all_truthy (o : params) (ks : list jsstring) : bool :=
  forallb (λ k, truthy (prop o k)) ks.

(** The model an agent runs with under [net]: its own if that is
    truthy, the default of the network otherwise. *)
Definition effective_model (net : Network) (a : Agent) : value :=
  js_or (prop (parameters a) k_model) (defaultModel net).

(** The agent after the parameter update of [executeAgent]. *)
Definition merged (net : Network) (prompt : jsstring) (a : Agent) : Agent :=
  setParameters
    {[ k_prompt := VStr prompt; k_model := effective_model net a ]} a.

(** The agent passes the check of its class once updated. *)
Definition passes (net : Network) (prompt : jsstring) (a : Agent) : bool :=
  all_truthy (parameters (merged net prompt a)) (required (kind a)).

(** The name is in the registry. *)
Definition registered (net : Network) (name : jsstring) : bool :=
  bool_decide (is_Some (JsMap.get name (agents net))).

(** The name is in the registry and its agent passes its check. *)
Definition ready (net : Network) (prompt : jsstring) (h : heap)
    (name : jsstring) : bool :=
  match JsMap.get name (agents net) with
  | Some l => passes net prompt (h l)
  | None => false
  end.

(** The names dispatched by a run. *)
Definition dispatched (r : run) : list jsstring := task_name <$> tasks r.

(** The task a name gives when dispatched on the store [h]. *)
Definition task_of (net : Network) (prompt : jsstring)
    (stream : bool) (streamCallback : option (jsstring → completion))
    (h : heap) (name : jsstring) : task :=
  (executeAgent net prompt stream streamCallback name h).1.

(** The names a call dispatches, of the names selected: all of them
    with [multipleAgents], the first one without. *)
Definition selected (multipleAgents : bool) (agentNames : list jsstring)
  : list jsstring :=
  if multipleAgents then agentNames else take 1 agentNames.

(** Some name of [names] is registered to the agent at [l]. *)
Definition reaches (net : Network) (names : list jsstring) (l : loc) : bool :=
  existsb (λ n, bool_decide (JsMap.get n (agents net) = Some l)) names.

(** The operation of the generation library an agent of class [k]
    calls, when streaming and when not. *)
Definition operation (k : agent_kind) (stream : bool) : capability :=
  match k, stream with
  | TextAgent, false => GenerateText
  | TextAgent, true => StreamText
  | ObjectAgent, false => GenerateObject
  | ObjectAgent, true => StreamObject
  end.

(** How a task that drains [textStream] into the callback settles. *)
Definition stream_end (streamCallback : option (jsstring → completion))
    (textStream : list jsstring) : settled :=
  match drain streamCallback textStream with
  | (invoked, true) => Streamed invoked
  | (invoked, false) => Interrupted invoked
  end.

(** The fragments of the stream the library opens for an agent once
    updated. *)
Definition fragments (net : Network) (prompt : jsstring) (a : Agent)
  : list jsstring :=
  match kind a with
  | TextAgent => streamText (parameters (merged net prompt a))
  | ObjectAgent => streamObject (parameters (merged net prompt a))
  end.

(** The end [e] of a task whose stream [textStream] was handed to the
    callback: either the callback returned on every fragment and was
    called on each of them, once and in their order; or it was called on
    the fragments up to the first one it throws on, in their order, and on
    none after it. *)
Definition forwarded (callback : jsstring → completion)
    (textStream : list jsstring) (e : settled) : Prop :=
  ((∀ f, f ∈ textStream → callback f = Returns) ∧ e = Streamed textStream)
  ∨ (∃ before f after,
       textStream = before ++ f :: after
       ∧ (∀ g, g ∈ before → callback g = Returns)
       ∧ callback f = Throws
       ∧ e = Interrupted (before ++ [f])).


(** ** Properties *)

(** *** Parsing the selection text *)

Lemma split_from_cons sep cur s :
  ∃ w ws, split_from sep cur s = w :: ws.
Proof.
  revert cur. induction s as [|c s IH]; intros cur; simpl.
  - eauto.
  - destruct (c =? sep); eauto.
Qed.

Lemma parseAgentNames_cons text :
  ∃ name rest, parseAgentNames text = name :: rest.
Proof.
  unfold parseAgentNames, split.
  destruct (split_from_cons comma [] (trim text)) as (w & ws & ->).
  simpl. eauto.
Qed.

Lemma inferAgents_cons net prompt multi :
  ∃ name rest, (inferAgents net prompt multi).2 = name :: rest.
Proof. apply parseAgentNames_cons. Qed.

(** *** The parameter bag *)

Lemma lookup_spread (o patch : params) k :
  spread o patch !! k
  = match patch !! k with Some v => Some v | None => o !! k end.
Proof.
  unfold spread. rewrite lookup_union.
  destruct (patch !! k), (o !! k); reflexivity.
Qed.

Lemma spread_idemp (o patch : params) :
  spread (spread o patch) patch = spread o patch.
Proof.
  apply map_eq; intros k. rewrite !lookup_spread.
  destruct (patch !! k); reflexivity.
Qed.

Lemma prop_empty_string (o : params) k :
  o !! k = Some (VStr []) → truthy (prop o k) = false.
Proof. intros H. unfold prop. rewrite H. reflexivity. Qed.

Lemma prop_absent (o : params) k :
  o !! k = None → truthy (prop o k) = false.
Proof. intros H. unfold prop. rewrite H. reflexivity. Qed.

Lemma js_or_idemp v d : js_or (js_or v d) d = js_or v d.
Proof. unfold js_or. destruct (truthy v) eqn:E; rewrite ?E; by destruct (truthy d). Qed.

(** *** The checks of the agents *)

Lemma Agent_execute_spec a :
  Agent_execute a
  = if all_truthy (parameters a) (required (kind a))
    then match kind a with
         | TextAgent => ([Call GenerateText (parameters a)],
                         inr (OutText (generateText (parameters a))))
         | ObjectAgent => ([Call GenerateObject (parameters a)],
                           inr (OutObject (generateObject (parameters a))))
         end
    else ([], inl (MissingParameter (kind a))).
Proof.
  unfold Agent_execute, TextAgent_execute, ObjectAgent_execute,
    validateParameters, all_truthy.
  destruct (kind a); simpl;
    destruct (truthy (prop (parameters a) k_prompt)); simpl;
    try destruct (truthy (prop (parameters a) k_schema)); simpl;
    destruct (truthy (prop (parameters a) k_model)); reflexivity.
Qed.

Lemma Agent_stream_spec a :
  Agent_stream a
  = if all_truthy (parameters a) (required (kind a))
    then match kind a with
         | TextAgent => ([Call StreamText (parameters a)],
                         inr (streamText (parameters a)))
         | ObjectAgent => ([Call StreamObject (parameters a)],
                           inr (streamObject (parameters a)))
         end
    else ([], inl (MissingParameter (kind a))).
Proof.
  unfold Agent_stream, TextAgent_stream, ObjectAgent_stream,
    validateParameters, all_truthy.
  destruct (kind a); simpl;
    destruct (truthy (prop (parameters a) k_prompt)); simpl;
    try destruct (truthy (prop (parameters a) k_schema)); simpl;
    destruct (truthy (prop (parameters a) k_model)); reflexivity.
Qed.

Lemma all_truthy_false o ks k :
  k ∈ ks → truthy (prop o k) = false → all_truthy o ks = false.
Proof.
  intros Hk Hf. unfold all_truthy.
  apply not_true_is_false. intros Hall. rewrite forallb_forall in Hall.
  apply list_elem_of_In in Hk. specialize (Hall _ Hk). congruence.
Qed.

Lemma all_truthy_true o ks :
  (∀ k, k ∈ ks → truthy (prop o k) = true) → all_truthy o ks = true.
Proof.
  intros H. unfold all_truthy. apply forallb_forall.
  intros k Hk. apply H. by apply list_elem_of_In.
Qed.

(** *** One dispatch *)

Lemma merged_kind net prompt a : kind (merged net prompt a) = kind a.
Proof. reflexivity. Qed.

Lemma merged_prompt net prompt a :
  parameters (merged net prompt a) !! k_prompt = Some (VStr prompt).
Proof.
  unfold merged, setParameters; simpl. rewrite lookup_spread.
  by rewrite lookup_insert_eq.
Qed.

Lemma merged_model net prompt a :
  parameters (merged net prompt a) !! k_model = Some (effective_model net a).
Proof.
  unfold merged, setParameters; simpl. rewrite lookup_spread.
  rewrite lookup_insert_ne by (by vm_compute).
  by rewrite lookup_singleton_eq.
Qed.

Lemma merged_other net prompt a k :
  k ≠ k_prompt → k ≠ k_model →
  parameters (merged net prompt a) !! k = parameters a !! k.
Proof.
  intros Hp Hm. unfold merged, setParameters; simpl. rewrite lookup_spread.
  rewrite lookup_insert_ne by done.
  by rewrite lookup_singleton_ne.
Qed.

Lemma merged_idemp net prompt a :
  merged net prompt (merged net prompt a) = merged net prompt a.
Proof.
  assert (effective_model net (merged net prompt a) = effective_model net a)
    as He.
  { unfold effective_model at 1. unfold prop. rewrite merged_model. simpl.
    apply js_or_idemp. }
  unfold merged at 1. rewrite He. unfold merged, setParameters; simpl.
  f_equal. apply spread_idemp.
Qed.

Lemma passes_merged net prompt a :
  passes net prompt (merged net prompt a) = passes net prompt a.
Proof. unfold passes. by rewrite merged_idemp, merged_kind. Qed.

Lemma executeAgent_unregistered net prompt stream cb name h :
  JsMap.get name (agents net) = None →
  executeAgent net prompt stream cb name h
  = (mkTask name [] (Thrown (AgentNotRegistered name)), h).
Proof. intros H. unfold executeAgent. by rewrite H. Qed.

Lemma executeAgent_registered net prompt stream cb name h l :
  JsMap.get name (agents net) = Some l →
  executeAgent net prompt stream cb name h
  = (let a := merged net prompt (h l) in
     if passes net prompt (h l) then
       match stream, kind a with
       | true, TextAgent =>
           mkTask name [Call StreamText (parameters a)]
             (stream_end cb (streamText (parameters a)))
       | true, ObjectAgent =>
           mkTask name [Call StreamObject (parameters a)]
             (stream_end cb (streamObject (parameters a)))
       | false, TextAgent =>
           mkTask name [Call GenerateText (parameters a)]
             (Stored (OutText (generateText (parameters a))))
       | false, ObjectAgent =>
           mkTask name [Call GenerateObject (parameters a)]
             (Stored (OutObject (generateObject (parameters a))))
       end
     else
       mkTask name []
         (if stream then Thrown (MissingParameter (kind a))
          else Rejected (MissingParameter (kind a))),
     <[ l := merged net prompt (h l) ]> h).
Proof.
  intros H. unfold executeAgent. rewrite H.
  fold (effective_model net (h l)). fold (merged net prompt (h l)).
  rewrite Agent_stream_spec, Agent_execute_spec. unfold passes, stream_end.
  rewrite merged_kind.
  destruct stream, (all_truthy _ _), (kind (h l)); try reflexivity.
  all: by destruct (drain cb _) as [invoked []].
Qed.

(** *** A whole call *)

Lemma executeAgent_store net prompt stream cb name h l :
  (executeAgent net prompt stream cb name h).2 l
  = if bool_decide (JsMap.get name (agents net) = Some l)
    then merged net prompt (h l) else h l.
Proof.
  destruct (JsMap.get name (agents net)) as [l0|] eqn:Hg.
  - rewrite (executeAgent_registered _ _ _ _ _ _ _ Hg). simpl.
    case_bool_decide as Hl.
    + injection Hl as ->. apply fn_lookup_insert.
    + apply fn_lookup_insert_ne. congruence.
  - by rewrite (executeAgent_unregistered _ _ _ _ _ _ Hg).
Qed.

(** A later dispatch of an agent sees the update of an earlier one,
    and gives the task it would have given on the first store. *)
Lemma task_of_updated net prompt stream cb h h' name :
  (∀ l, h' l = h l ∨ h' l = merged net prompt (h l)) →
  task_of net prompt stream cb h' name = task_of net prompt stream cb h name.
Proof.
  intros Hh. unfold task_of.
  destruct (JsMap.get name (agents net)) as [l|] eqn:Hg.
  - rewrite !(executeAgent_registered _ _ _ _ _ _ _ Hg). cbv zeta.
    destruct (Hh l) as [-> | ->]; [done|].
    by rewrite passes_merged, merged_idemp.
  - by rewrite !(executeAgent_unregistered _ _ _ _ _ _ Hg).
Qed.

Lemma map_executeAgent_tasks net prompt stream cb names h :
  (map_executeAgent net prompt stream cb names h).1
  = task_of net prompt stream cb h <$> names.
Proof.
  revert h. induction names as [|n ns IH]; intros h; simpl; [done|].
  destruct (executeAgent net prompt stream cb n h) as [t h1] eqn:E1.
  specialize (IH h1).
  destruct (map_executeAgent net prompt stream cb ns h1) as [ts h2] eqn:E2.
  simpl in *. subst ts. f_equal.
  - unfold task_of. by rewrite E1.
  - apply list_fmap_ext. intros _ n' _.
    apply task_of_updated. intros l.
    replace h1 with (executeAgent net prompt stream cb n h).2
      by (by rewrite E1).
    rewrite executeAgent_store. case_bool_decide; auto.
Qed.

Lemma map_executeAgent_store net prompt stream cb names h l :
  (map_executeAgent net prompt stream cb names h).2 l
  = if reaches net names l then merged net prompt (h l) else h l.
Proof.
  revert h. induction names as [|n ns IH]; intros h; simpl; [done|].
  destruct (executeAgent net prompt stream cb n h) as [t h1] eqn:E1.
  specialize (IH h1).
  destruct (map_executeAgent net prompt stream cb ns h1) as [ts h2] eqn:E2.
  simpl in *. rewrite IH.
  replace h1 with (executeAgent net prompt stream cb n h).2
    by (by rewrite E1).
  rewrite executeAgent_store.
  case_bool_decide; simpl; [|done].
  rewrite merged_idemp. by destruct (reaches net ns l).
Qed.

Lemma Promise_all_single t : Promise_all [t] = awaited t.
Proof.
  unfold Promise_all, awaited, thrown, rejected. simpl.
  by destruct (task_end t).
Qed.

(** A call of [execute] dispatches the selected names in order. *)
Lemma execute_dispatch net prompt ps h :
  let multi := default false (multipleAgents ps) in
  let sel := inferAgents net prompt multi in
  let m := map_executeAgent net prompt (default false (stream ps))
             (streamCallback ps) (selected multi sel.2) h in
  execute net prompt ps h
  = mkRun sel.1 m.1 m.2 (settle (Promise_all m.1) m.1).
Proof.
  cbv zeta. unfold execute.
  destruct (inferAgents_cons net prompt (default false (multipleAgents ps)))
    as (n & ns & Hn).
  destruct (inferAgents net prompt _) as [ic names].
  cbn [fst snd] in *. subst names.
  change (length (n :: ns) =? 0)%nat with false. cbv iota.
  unfold selected.
  destruct (default false (multipleAgents ps)); cbn [negb].
  - by destruct (map_executeAgent _ _ _ _ (n :: ns) h) as [ts h2].
  - change ((n :: ns) !! 0%nat) with (Some n). cbv iota.
    change (take 1 (n :: ns)) with [n].
    cbn [map_executeAgent].
    destruct (executeAgent _ _ _ _ n h) as [t h1]. cbn [fst snd].
    by rewrite Promise_all_single.
Qed.

Lemma execute_tasks net prompt ps h :
  let multi := default false (multipleAgents ps) in
  let names := selected multi (inferAgents net prompt multi).2 in
  tasks (execute net prompt ps h)
  = task_of net prompt (default false (stream ps)) (streamCallback ps) h
      <$> names.
Proof.
  cbv zeta. rewrite execute_dispatch. cbn [tasks].
  apply map_executeAgent_tasks.
Qed.

Lemma execute_outcome net prompt ps h :
  let r := execute net prompt ps h in
  outcome r = settle (Promise_all (tasks r)) (tasks r).
Proof. cbv zeta. by rewrite execute_dispatch. Qed.

Lemma execute_store net prompt ps h l :
  let multi := default false (multipleAgents ps) in
  let names := selected multi (inferAgents net prompt multi).2 in
  store (execute net prompt ps h) l
  = if reaches net names l then merged net prompt (h l) else h l.
Proof.
  cbv zeta. rewrite execute_dispatch. cbn [store].
  apply map_executeAgent_store.
Qed.

Lemma task_of_unregistered net prompt stream cb h name :
  JsMap.get name (agents net) = None →
  task_of net prompt stream cb h name
  = mkTask name [] (Thrown (AgentNotRegistered name)).
Proof.
  intros Hg. unfold task_of.
  by rewrite (executeAgent_unregistered _ _ _ _ _ _ Hg).
Qed.

Lemma task_of_failing net prompt stream cb h name l :
  JsMap.get name (agents net) = Some l →
  passes net prompt (h l) = false →
  task_of net prompt stream cb h name
  = mkTask name []
      (if stream then Thrown (MissingParameter (kind (h l)))
       else Rejected (MissingParameter (kind (h l)))).
Proof.
  intros Hg Hp. unfold task_of.
  rewrite (executeAgent_registered _ _ _ _ _ _ _ Hg). cbv zeta.
  by rewrite Hp.
Qed.

Lemma task_of_passing net prompt stream cb h name l :
  JsMap.get name (agents net) = Some l →
  passes net prompt (h l) = true →
  task_of net prompt stream cb h name
  = let a := merged net prompt (h l) in
    match stream, kind a with
    | true, TextAgent =>
        mkTask name [Call StreamText (parameters a)]
          (stream_end cb (streamText (parameters a)))
    | true, ObjectAgent =>
        mkTask name [Call StreamObject (parameters a)]
          (stream_end cb (streamObject (parameters a)))
    | false, TextAgent =>
        mkTask name [Call GenerateText (parameters a)]
          (Stored (OutText (generateText (parameters a))))
    | false, ObjectAgent =>
        mkTask name [Call GenerateObject (parameters a)]
          (Stored (OutObject (generateObject (parameters a))))
    end.
Proof.
  intros Hg Hp. unfold task_of.
  rewrite (executeAgent_registered _ _ _ _ _ _ _ Hg). cbv zeta.
  by rewrite Hp.
Qed.

Lemma task_of_name net prompt stream cb h name :
  task_name (task_of net prompt stream cb h name) = name.
Proof.
  destruct (JsMap.get name (agents net)) as [l|] eqn:Hg.
  - destruct (passes net prompt (h l)) eqn:Hp.
    + rewrite (task_of_passing _ _ _ _ _ _ _ Hg Hp). cbv zeta.
      by destruct stream, (kind _).
    + by rewrite (task_of_failing _ _ _ _ _ _ _ Hg Hp).
  - by rewrite (task_of_unregistered _ _ _ _ _ _ Hg).
Qed.

Lemma execute_dispatched net prompt ps h :
  let multi := default false (multipleAgents ps) in
  dispatched (execute net prompt ps h)
  = selected multi (inferAgents net prompt multi).2.
Proof.
  cbv zeta. unfold dispatched. rewrite execute_tasks. cbv zeta.
  rewrite <- list_fmap_compose.
  rewrite <- (list_fmap_id (selected _ _)) at 2.
  apply list_fmap_ext. intros _ n _. apply task_of_name.
Qed.

Lemma drain_absent textStream : drain None textStream = ([], true).
Proof. by induction textStream. Qed.

Lemma stream_end_absent textStream : stream_end None textStream = Streamed [].
Proof. unfold stream_end. by rewrite drain_absent. Qed.

Lemma stream_end_forwarded callback textStream :
  forwarded callback textStream (stream_end (Some callback) textStream).
Proof.
  unfold stream_end.
  induction textStream as [|x xs IH]; simpl.
  - left. split; [|done]. by intros f ?%elem_of_nil.
  - destruct (callback x) eqn:Hx.
    + destruct (drain (Some callback) xs) as [invoked finished].
      destruct IH as [[Hall He] | (before & f & after & Hxs & Hb & Hf & He)].
      * left. destruct finished; [|done]. injection He as ->.
        split; [|done]. by intros f [->|?]%elem_of_cons; [|apply Hall].
      * right. destruct finished; [done|]. injection He as ->.
        exists (x :: before), f, after. rewrite Hxs.
        split; [done|]. split; [|done].
        by intros g [->|?]%elem_of_cons; [|apply Hb].
    + right. exists [], x, xs. split; [done|]. split; [|done].
      by intros g ?%elem_of_nil.
Qed.

Lemma stream_end_finished callback textStream :
  (∀ f, f ∈ textStream → callback f = Returns) →
  stream_end (Some callback) textStream = Streamed textStream.
Proof.
  intros Hall.
  destruct (stream_end_forwarded callback textStream)
    as [[_ He] | (before & f & after & Hxs & _ & Hf & _)]; [done|].
  rewrite Hall in Hf; [done|]. rewrite Hxs. apply elem_of_app. right.
  apply list_elem_of_here.
Qed.

Lemma stream_end_not_stored cb textStream out :
  stream_end cb textStream ≠ Stored out.
Proof. unfold stream_end. by destruct (drain cb textStream) as [? []]. Qed.

Lemma stream_end_not_thrown cb textStream e :
  stream_end cb textStream ≠ Thrown e ∧ stream_end cb textStream ≠ Rejected e.
Proof. unfold stream_end. by destruct (drain cb textStream) as [? []]. Qed.

Lemma reaches_elem net names name l :
  name ∈ names → JsMap.get name (agents net) = Some l →
  reaches net names l = true.
Proof.
  intros Hin Hg. unfold reaches. apply existsb_exists.
  exists name. split; [by apply list_elem_of_In|].
  by apply bool_decide_eq_true_2.
Qed.

Lemma Promise_all_error ts e :
  Promise_all ts = Some e → ∃ t, t ∈ ts ∧ awaited t = Some e.
Proof.
  unfold Promise_all. intros H.
  assert (∀ f, (∀ t e, f t = Some e → awaited t = Some e) →
               head (omap f ts) = Some e →
               ∃ t, t ∈ ts ∧ awaited t = Some e) as Hf.
  { intros f Hsub Hh.
    assert (e ∈ omap f ts) as Hin.
    { destruct (omap f ts); simplify_eq/=. apply list_elem_of_here. }
    apply list_elem_of_omap in Hin as (t & Ht & Hft). eauto. }
  destruct (head (omap thrown ts)) as [e'|] eqn:Hth.
  - injection H as ->. apply (Hf thrown); [|done].
    intros t e'. unfold thrown, awaited. by destruct (task_end t).
  - apply (Hf rejected); [|done].
    intros t e'. unfold rejected, awaited. by destruct (task_end t).
Qed.

Lemma task_of_awaited net prompt stream cb h name e :
  awaited (task_of net prompt stream cb h name) = Some e →
  e = AgentNotRegistered name ∨ (∃ k, e = MissingParameter k)
  ∨ e = CallbackThrew.
Proof.
  destruct (JsMap.get name (agents net)) as [l|] eqn:Hg.
  - destruct (passes net prompt (h l)) eqn:Hp.
    + rewrite (task_of_passing _ _ _ _ _ _ _ Hg Hp). cbv zeta.
      destruct stream, (kind _); try done.
      all: unfold awaited, stream_end; simpl.
      all: destruct (drain cb _) as [invoked []]; [done|].
      all: intros [= <-]; auto.
    + rewrite (task_of_failing _ _ _ _ _ _ _ Hg Hp).
      destruct stream; unfold awaited; simpl; intros [= <-]; eauto.
  - rewrite (task_of_unregistered _ _ _ _ _ _ Hg).
    unfold awaited; simpl. intros [= <-]. eauto.
Qed.

Lemma thrown_task_of net prompt stream cb h name :
  thrown (task_of net prompt stream cb h name)
  = match JsMap.get name (agents net) with
    | None => Some (AgentNotRegistered name)
    | Some l =>
        if stream && negb (passes net prompt (h l))
        then Some (MissingParameter (kind (h l))) else None
    end.
Proof.
  destruct (JsMap.get name (agents net)) as [l|] eqn:Hg.
  - destruct (passes net prompt (h l)) eqn:Hp.
    + rewrite (task_of_passing _ _ _ _ _ _ _ Hg Hp). cbv zeta.
      rewrite andb_false_r. destruct stream, (kind _); try done.
      all: unfold thrown, stream_end; simpl.
      all: by destruct (drain cb _) as [invoked []].
    + rewrite (task_of_failing _ _ _ _ _ _ _ Hg Hp). by destruct stream.
  - by rewrite (task_of_unregistered _ _ _ _ _ _ Hg).
Qed.

Lemma rejected_task_of net prompt stream cb h name :
  rejected (task_of net prompt stream cb h name)
  = match JsMap.get name (agents net) with
    | None => None
    | Some l =>
        if passes net prompt (h l)
        then if stream && negb (drain cb (fragments net prompt (h l))).2
             then Some CallbackThrew else None
        else if stream then None
             else Some (MissingParameter (kind (h l)))
    end.
Proof.
  destruct (JsMap.get name (agents net)) as [l|] eqn:Hg.
  - destruct (passes net prompt (h l)) eqn:Hp.
    + rewrite (task_of_passing _ _ _ _ _ _ _ Hg Hp). cbv zeta.
      unfold fragments. rewrite merged_kind.
      destruct stream, (kind _); try done.
      all: unfold rejected, stream_end; simpl.
      all: by destruct (drain cb _) as [invoked []].
    + rewrite (task_of_failing _ _ _ _ _ _ _ Hg Hp). by destruct stream.
  - by rewrite (task_of_unregistered _ _ _ _ _ _ Hg).
Qed.

Lemma head_omap_first {A B} (f : A → option B) l1 x l2 y :
  (∀ a, a ∈ l1 → f a = None) → f x = Some y →
  head (omap f (l1 ++ x :: l2)) = Some y.
Proof.
  intros Hl1 Hx. induction l1 as [|a l1 IH]; simpl.
  - by rewrite Hx.
  - rewrite (Hl1 a) by apply list_elem_of_here.
    apply IH. intros a' Ha'. apply Hl1. by apply list_elem_of_further.
Qed.

Lemma head_omap_some {A B} (f : A → option B) l x y :
  x ∈ l → f x = Some y → is_Some (head (omap f l)).
Proof.
  intros Hin Hx.
  assert (y ∈ omap f l) as Hy by (apply list_elem_of_omap; eauto).
  destruct (omap f l); [by apply elem_of_nil in Hy | by eexists].
Qed.

Lemma head_omap_none {A B} (f : A → option B) l :
  head (omap f l) = None ↔ ∀ x, x ∈ l → f x = None.
Proof.
  split.
  - intros Hh x Hin. destruct (f x) as [y|] eqn:Hx; [|done].
    destruct (head_omap_some f l x y Hin Hx) as [z Hz]. congruence.
  - intros Hall. induction l as [|a l IH]; simpl; [done|].
    rewrite (Hall a) by apply list_elem_of_here.
    apply IH. intros x Hx. apply Hall. by apply list_elem_of_further.
Qed.

Lemma Promise_all_none ts :
  Promise_all ts = None ↔ ∀ t, t ∈ ts → awaited t = None.
Proof.
  unfold Promise_all. split.
  - intros H t Ht.
    destruct (head (omap thrown ts)) eqn:Hth; [done|].
    rewrite head_omap_none in Hth, H.
    specialize (Hth t Ht). specialize (H t Ht).
    unfold thrown, rejected, awaited in *. by destruct (task_end t).
  - intros H.
    assert (head (omap thrown ts) = None) as ->.
    { apply head_omap_none. intros t Ht. specialize (H t Ht).
      unfold thrown, awaited in *. by destruct (task_end t). }
    apply head_omap_none. intros t Ht. specialize (H t Ht).
    unfold rejected, awaited in *. by destruct (task_end t).
Qed.

Lemma result_of_lookup ts name :
  is_Some (result_of ts !! name)
  ↔ ∃ t out, t ∈ ts ∧ task_name t = name ∧ task_end t = Stored out.
Proof.
  unfold result_of.
  enough (∀ acc : gmap jsstring output,
            is_Some (foldl (λ result t,
                       match task_end t with
                       | Stored output => <[ task_name t := output ]> result
                       | _ => result
                       end) acc ts !! name)
            ↔ is_Some (acc !! name)
              ∨ ∃ t out, t ∈ ts ∧ task_name t = name
                         ∧ task_end t = Stored out) as H.
  { rewrite H, lookup_empty. split; [|by auto].
    intros [[? [=]]|?]; done. }
  induction ts as [|t ts IH]; intros acc; simpl.
  - split; [by auto|]. intros [?|(t & out & Ht%elem_of_nil & _)]; done.
  - rewrite IH. split.
    + intros [Hacc | (t' & out & Ht' & Hn & He)].
      * destruct (task_end t) as [| | |out|] eqn:Et; auto.
        destruct (decide (task_name t = name)) as [Heq|Hne].
        -- right. exists t, out. split; [apply list_elem_of_here|done].
        -- rewrite lookup_insert_ne in Hacc by done. auto.
      * right. exists t', out. split; [by apply list_elem_of_further|done].
    + intros [Hacc | (t' & out & Ht' & Hn & He)].
      * left. destruct (task_end t); auto.
        destruct (decide (task_name t = name)) as [->|Hne].
        -- rewrite lookup_insert_eq. by eexists.
        -- by rewrite lookup_insert_ne.
      * apply elem_of_cons in Ht' as [-> | Ht'].
        -- left. rewrite He, <- Hn, lookup_insert_eq. by eexists.
        -- right. eauto.
Qed.


Lemma ready_get net prompt h name :
  ready net prompt h name = true →
  ∃ l, JsMap.get name (agents net) = Some l ∧ passes net prompt (h l) = true.
Proof. unfold ready. destruct (JsMap.get _ _); [eauto|done]. Qed.

Lemma registered_get net name :
  registered net name = true → ∃ l, JsMap.get name (agents net) = Some l.
Proof. unfold registered. intros [l Hl]%bool_decide_eq_true. eauto. Qed.

Lemma unregistered_get net name :
  registered net name = false → JsMap.get name (agents net) = None.
Proof.
  unfold registered. intros H%bool_decide_eq_false.
  by apply eq_None_not_Some.
Qed.

Lemma passes_spec net prompt a :
  passes net prompt a
  = negb (bool_decide (prompt = []))
    && truthy (effective_model net a)
    && match kind a with
       | TextAgent => true
       | ObjectAgent => truthy (prop (parameters a) k_schema)
       end.
Proof.
  unfold passes, all_truthy, required.
  assert (prop (parameters (merged net prompt a)) k_prompt = VStr prompt)
    as Hp by (unfold prop; by rewrite merged_prompt).
  assert (prop (parameters (merged net prompt a)) k_model
          = effective_model net a)
    as Hm by (unfold prop; by rewrite merged_model).
  assert (prop (parameters (merged net prompt a)) k_schema
          = prop (parameters a) k_schema) as Hs.
  { unfold prop. by rewrite merged_other by (by vm_compute). }
  destruct (kind a); cbn [forallb]; rewrite Hp, Hm, ?Hs; cbn [truthy];
    destruct (negb (bool_decide (prompt = []))),
      (truthy (effective_model net a)),
      (truthy (prop (parameters a) k_schema)); reflexivity.
Qed.

Lemma task_of_passing_calls net prompt stream cb h name l :
  JsMap.get name (agents net) = Some l →
  passes net prompt (h l) = true →
  task_calls (task_of net prompt stream cb h name)
  = [Call (operation (kind (h l)) stream)
       (parameters (merged net prompt (h l)))].
Proof.
  intros Hg Hp. rewrite (task_of_passing _ _ _ _ _ _ _ Hg Hp). cbv zeta.
  rewrite merged_kind. by destruct stream, (kind (h l)).
Qed.

Lemma task_of_failing_calls net prompt stream cb h name :
  ready net prompt h name = false →
  task_calls (task_of net prompt stream cb h name) = [].
Proof.
  unfold ready. destruct (JsMap.get name (agents net)) as [l|] eqn:Hg.
  - intros Hp. by rewrite (task_of_failing _ _ _ _ _ _ _ Hg Hp).
  - intros _. by rewrite (task_of_unregistered _ _ _ _ _ _ Hg).
Qed.

(** *** The claims *)

(** C8. [setParameters] is a shallow merge of the patch into the
    parameters of the agent and changes nothing else: a key of the patch
    takes the value of the patch, any other key keeps its value; merging
    [{a:1}] then [{b:2}] gives [{a:1, b:2}], merging [{a:3}] after that
    gives [{a:3, b:2}]; and merging the same patch twice gives what
    merging it once gives. *)
Theorem setParameters_shallow_merge :
  (∀ patch a k,
     parameters (setParameters patch a) !! k
     = match patch !! k with Some v => Some v | None => parameters a !! k end)
  ∧ (∀ patch a, kind (setParameters patch a) = kind a)
  ∧ (∀ cls,
       let a1 := setParameters {[ lit "b" := VNum 2 ]}
                   (setParameters {[ lit "a" := VNum 1 ]} (mkAgent cls ∅)) in
       parameters a1 = {[ lit "a" := VNum 1; lit "b" := VNum 2 ]}
       ∧ parameters (setParameters {[ lit "a" := VNum 3 ]} a1)
         = {[ lit "a" := VNum 3; lit "b" := VNum 2 ]})
  ∧ (∀ patch a,
       setParameters patch (setParameters patch a) = setParameters patch a).
Proof.
  split; [|split; [|split]].
  - intros patch a k. apply lookup_spread.
  - reflexivity.
  - intros cls. split; by vm_compute.
  - intros patch a. unfold setParameters; simpl. f_equal.
    apply spread_idemp.
Qed.

(** C10. The checks test the truth value of a parameter, not its
    presence: an agent whose prompt, model or (for an ObjectAgent) schema
    is the empty string fails [execute()] and [stream()] with
    MissingParameter, without a call of the generation library, exactly
    as the same agent with that key removed does. *)
Theorem empty_string_counts_as_missing a k :
  k ∈ required (kind a) →
  parameters a !! k = Some (VStr []) →
  let a' := mkAgent (kind a) (delete k (parameters a)) in
  Agent_execute a = ([], inl (MissingParameter (kind a)))
  ∧ Agent_stream a = ([], inl (MissingParameter (kind a)))
  ∧ Agent_execute a' = Agent_execute a
  ∧ Agent_stream a' = Agent_stream a.
Proof.
  intros Hk Hv a'.
  assert (all_truthy (parameters a) (required (kind a)) = false) as Ha.
  { eapply all_truthy_false; [done|]. by apply prop_empty_string. }
  assert (all_truthy (parameters a') (required (kind a')) = false) as Ha'.
  { eapply all_truthy_false; [done|]. apply prop_absent.
    apply lookup_delete_eq. }
  rewrite !Agent_execute_spec, !Agent_stream_spec, Ha, Ha'. done.
Qed.

(** C2, amended. An agent whose required parameters (prompt and model,
    and schema for an ObjectAgent) all have truthy values gets a result
    from [execute()], from one call of the generation library with the
    parameters of the agent; an agent one of whose required parameters
    is absent, or present with a falsy value, fails [execute()] with
    MissingParameter and the generation library is not called. *)
Theorem execute_checks_required a :
  ((∀ k, k ∈ required (kind a) → truthy (prop (parameters a) k) = true) →
     ∃ c out, Agent_execute a = ([c], inr out) ∧ args c = parameters a)
  ∧ ((∃ k, k ∈ required (kind a) ∧ truthy (prop (parameters a) k) = false) →
     Agent_execute a = ([], inl (MissingParameter (kind a))))
  ∧ ((∃ k, k ∈ required (kind a) ∧ parameters a !! k = None) →
     Agent_execute a = ([], inl (MissingParameter (kind a)))).
Proof.
  rewrite Agent_execute_spec. split; [|split].
  - intros H. rewrite (all_truthy_true _ _ H).
    destruct (kind a); eauto.
  - intros (k & Hk & Hf). by rewrite (all_truthy_false _ _ _ Hk Hf).
  - intros (k & Hk & Hn).
    by rewrite (all_truthy_false _ _ _ Hk (prop_absent _ _ Hn)).
Qed.

(** C9. Whatever text the selection call returns, the list of names
    read from it has at least one element, so no call of [execute]
    fails with NoApplicableAgents; the empty text gives one name, the
    empty string. *)
Theorem inferred_names_never_empty :
  (∀ text, (1 ≤ length (parseAgentNames text))%nat)
  ∧ parseAgentNames [] = [[]]
  ∧ (∀ net prompt ps h,
       outcome (execute net prompt ps h) ≠ inl NoApplicableAgents).
Proof.
  split; [|split].
  - intros text. destruct (parseAgentNames_cons text) as (n & ns & ->).
    simpl. lia.
  - reflexivity.
  - intros net prompt ps h. rewrite execute_outcome. cbv zeta.
    destruct (Promise_all _) as [e|] eqn:He; simpl; [|done].
    apply Promise_all_error in He as (t & Ht & He).
    rewrite execute_tasks in Ht. cbv zeta in Ht.
    apply list_elem_of_fmap in Ht as (n & -> & _).
    apply task_of_awaited in He as [-> | [[k ->] | ->]]; done.
Qed.

(** C5. After a call of [execute], the prompt of every agent that was
    dispatched is the prompt given to [execute], and in the whole store
    no key of any agent other than prompt and model has changed, nor
    has the class of any agent. *)
Theorem dispatch_touches_prompt_and_model net prompt ps h :
  let r := execute net prompt ps h in
  (∀ name l,
     name ∈ dispatched r → JsMap.get name (agents net) = Some l →
     parameters (store r l) !! k_prompt = Some (VStr prompt))
  ∧ (∀ l k,
       k ≠ k_prompt → k ≠ k_model →
       parameters (store r l) !! k = parameters (h l) !! k)
  ∧ (∀ l, kind (store r l) = kind (h l)).
Proof.
  cbv zeta. split; [|split].
  - intros name l Hin Hg. rewrite execute_dispatched in Hin.
    rewrite execute_store. cbv zeta in *.
    rewrite (reaches_elem _ _ _ _ Hin Hg). apply merged_prompt.
  - intros l k Hp Hm. rewrite execute_store. cbv zeta.
    destruct (reaches _ _ _); [|done]. by apply merged_other.
  - intros l. rewrite execute_store. cbv zeta.
    by destruct (reaches _ _ _).
Qed.

(** C4. Every call of the generation library made for a dispatched
    agent carries as model the agent's own model when that is truthy and
    the default model of the network otherwise. And the calls are made:
    when the prompt is not empty and, for an object agent, the schema is
    truthy, a dispatched agent with a truthy model of its own is run, once,
    with that model, whatever the default of the network is; one without
    is run, once, with the default of the network when that is truthy, and
    is not run at all when the network has none either. *)
Theorem model_precedence net prompt ps h :
  let r := execute net prompt ps h in
  (∀ t c,
     t ∈ tasks r → c ∈ task_calls t →
     ∃ l, JsMap.get (task_name t) (agents net) = Some l
          ∧ args c !! k_model
            = Some (js_or (prop (parameters (h l)) k_model)
                      (defaultModel net)))
  ∧ (∀ name l,
       name ∈ dispatched r →
       JsMap.get name (agents net) = Some l →
       prompt ≠ [] →
       (kind (h l) = ObjectAgent →
        truthy (prop (parameters (h l)) k_schema) = true) →
       let own := prop (parameters (h l)) k_model in
       (truthy own = true →
        ∃ t c, t ∈ tasks r ∧ task_name t = name ∧ task_calls t = [c]
               ∧ args c !! k_model = Some own)
       ∧ (truthy own = false → truthy (defaultModel net) = true →
          ∃ t c, t ∈ tasks r ∧ task_name t = name ∧ task_calls t = [c]
                 ∧ args c !! k_model = Some (defaultModel net))
       ∧ (truthy own = false → truthy (defaultModel net) = false →
          ∀ t, t ∈ tasks r → task_name t = name → task_calls t = [])).
Proof.
  cbv zeta. split.
  - intros t c Ht Hc. rewrite execute_tasks in Ht. cbv zeta in Ht.
    apply list_elem_of_fmap in Ht as (n & -> & _).
    rewrite task_of_name.
    destruct (ready net prompt h n) eqn:Hr.
    + apply ready_get in Hr as (l & Hg & Hp).
      rewrite (task_of_passing_calls _ _ _ _ _ _ _ Hg Hp) in Hc.
      apply list_elem_of_singleton in Hc as ->.
      exists l. split; [done|]. apply merged_model.
    + rewrite (task_of_failing_calls _ _ _ _ _ _ Hr) in Hc.
      by apply elem_of_nil in Hc.
  - intros name l Hn Hg Hprompt Hschema. cbv zeta.
    rewrite execute_dispatched in Hn. cbv zeta in Hn.
    assert (passes net prompt (h l)
            = truthy (js_or (prop (parameters (h l)) k_model)
                        (defaultModel net))) as Hpasses.
    { rewrite passes_spec. unfold effective_model.
      rewrite bool_decide_eq_false_2 by done. simpl.
      destruct (kind (h l)) eqn:Hk; [apply andb_true_r|].
      rewrite Hschema by done. apply andb_true_r. }
    assert (passes net prompt (h l) = true →
            ∃ t c, t ∈ tasks (execute net prompt ps h)
                   ∧ task_name t = name ∧ task_calls t = [c]
                   ∧ args c !! k_model
                     = Some (js_or (prop (parameters (h l)) k_model)
                               (defaultModel net))) as Hcall.
    { intros Hp. rewrite execute_tasks. cbv zeta.
      eexists _, _. split; [by apply list_elem_of_fmap_2|].
      rewrite task_of_name. split; [done|].
      rewrite (task_of_passing_calls _ _ _ _ _ _ _ Hg Hp).
      split; [done|]. apply merged_model. }
    unfold js_or in *. split; [|split].
    + intros Hown. rewrite Hown in Hpasses, Hcall. apply Hcall.
      by rewrite Hpasses.
    + intros Hown Hdef. rewrite Hown in Hpasses, Hcall. apply Hcall.
      by rewrite Hpasses.
    + intros Hown Hdef t Ht Hname. rewrite Hown, Hdef in Hpasses.
      rewrite execute_tasks in Ht. cbv zeta in Ht.
      apply list_elem_of_fmap in Ht as (n & -> & _).
      rewrite task_of_name in Hname. subst n.
      apply task_of_failing_calls. unfold ready. by rewrite Hg.
Qed.

(** C3, amended. When a dispatched name (the first selected name
    without [multipleAgents], any selected name with it) has no registry
    entry, the call rejects as a whole and returns no result map. Let
    [name] be the first such name. Without streaming the error is
    AgentNotRegistered([name]). With streaming it is
    AgentNotRegistered([name]) when the agents dispatched before [name]
    pass their checks, and the MissingParameter of the first of them that
    does not otherwise. *)
Theorem unregistered_dispatch_rejects net prompt ps h pre name post :
  let multi := default false (multipleAgents ps) in
  let r := execute net prompt ps h in
  selected multi (inferAgents net prompt multi).2 = pre ++ name :: post →
  (∀ n, n ∈ pre → registered net n = true) →
  registered net name = false →
  (∃ e, outcome r = inl e)
  ∧ (default false (stream ps) = false →
     outcome r = inl (AgentNotRegistered name))
  ∧ ((∀ n, n ∈ pre → ready net prompt h n = true) →
     outcome r = inl (AgentNotRegistered name))
  ∧ (default false (stream ps) = true →
     ∀ p1 n p2,
       pre = p1 ++ n :: p2 →
       (∀ n', n' ∈ p1 → ready net prompt h n' = true) →
       ready net prompt h n = false →
       ∃ k, outcome r = inl (MissingParameter k)).
Proof.
  cbv zeta. intros Hsel Hpre Hname.
  apply unregistered_get in Hname.
  rewrite execute_outcome. cbv zeta. rewrite execute_tasks. cbv zeta.
  rewrite Hsel. clear Hsel.
  set (st := default false (stream ps)).
  set (f := task_of net prompt st (streamCallback ps) h).
  assert (thrown (f name) = Some (AgentNotRegistered name)) as Hthrown.
  { unfold f. by rewrite thrown_task_of, Hname. }
  assert (∀ l1 l2 e, (∀ n, n ∈ l1 → thrown (f n) = None) →
                     thrown (f l2.1) = Some e →
                     settle (Promise_all (f <$> l1 ++ l2.1 :: l2.2))
                       (f <$> l1 ++ l2.1 :: l2.2) = inl e) as Hfirst.
  { intros l1 l2 e Hl1 He. unfold Promise_all.
    rewrite fmap_app, fmap_cons.
    rewrite (head_omap_first thrown (f <$> l1) (f l2.1) (f <$> l2.2) e);
      [done| |done].
    intros t (n & -> & Hn)%list_elem_of_fmap. by apply Hl1. }
  split; [|split; [|split]].
  - unfold Promise_all.
    destruct (head_omap_some thrown (f <$> pre ++ name :: post) (f name)
                (AgentNotRegistered name)) as [e He]; [|done|].
    { apply list_elem_of_fmap. exists name. split; [done|].
      apply elem_of_app. right. apply list_elem_of_here. }
    rewrite He. eauto.
  - intros Hst. apply (Hfirst pre (name, post)); [|done].
    intros n Hn. destruct (registered_get _ _ (Hpre n Hn)) as [l Hl].
    unfold f. by rewrite thrown_task_of, Hl, Hst.
  - intros Hready. apply (Hfirst pre (name, post)); [|done].
    intros n Hn. destruct (ready_get _ _ _ _ (Hready n Hn)) as (l & Hl & Hp).
    unfold f. rewrite thrown_task_of, Hl, Hp. by rewrite andb_false_r.
  - intros Hst p1 n p2 -> Hready Hn.
    destruct (registered_get net n) as [l Hl].
    { apply Hpre. apply elem_of_app. right. apply list_elem_of_here. }
    exists (kind (h l)). rewrite <- app_assoc.
    apply (Hfirst p1 (n, p2 ++ name :: post)).
    + intros n' Hn'.
      destruct (ready_get _ _ _ _ (Hready n' Hn')) as (l' & Hl' & Hp).
      unfold f. rewrite thrown_task_of, Hl', Hp. by rewrite andb_false_r.
    + simpl. unfold f. rewrite thrown_task_of, Hl, Hst.
      unfold ready in Hn. rewrite Hl in Hn. by rewrite Hn.
Qed.

(** C6. Without streaming: when [multipleAgents] is false, only the
    first selected name is dispatched, a result map that is returned
    has exactly one entry, under that name, and one is returned when the
    agent of that name is registered and passes its check; when
    [multipleAgents] is true, every selected name is dispatched, a
    result map that is returned has an entry for a name exactly when the
    name was selected, and one is returned when all the selected agents
    are registered and pass their checks. *)
Theorem dispatch_policy net prompt ps h :
  default false (stream ps) = false →
  let multi := default false (multipleAgents ps) in
  let names := (inferAgents net prompt multi).2 in
  let r := execute net prompt ps h in
  (multi = false →
     ∃ first rest,
       names = first :: rest
       ∧ dispatched r = [first]
       ∧ (∀ m, outcome r = inr m →
               size m = 1%nat ∧ ∃ out, m = {[ first := out ]})
       ∧ (ready net prompt h first = true → ∃ m, outcome r = inr m))
  ∧ (multi = true →
       dispatched r = names
       ∧ (∀ m, outcome r = inr m → ∀ n, is_Some (m !! n) ↔ n ∈ names)
       ∧ (∀ m, outcome r = inr m →
               NoDup names → size m = length names)
       ∧ ((∀ n, n ∈ names → ready net prompt h n = true) →
          ∃ m, outcome r = inr m)).
Proof.
  intros Hst. cbv zeta.
  assert (∀ n out, task_end (task_of net prompt false (streamCallback ps) h n)
                   ≠ Streamed out) as Hnostream.
  { intros n out.
    destruct (JsMap.get n (agents net)) as [l|] eqn:Hg.
    - destruct (passes net prompt (h l)) eqn:Hp.
      + rewrite (task_of_passing _ _ _ _ _ _ _ Hg Hp). cbv zeta.
        by destruct (kind _).
      + by rewrite (task_of_failing _ _ _ _ _ _ _ Hg Hp).
    - by rewrite (task_of_unregistered _ _ _ _ _ _ Hg). }
  assert (∀ n, awaited (task_of net prompt false (streamCallback ps) h n)
               = None →
               ∃ out, task_end (task_of net prompt false (streamCallback ps) h n)
                      = Stored out) as Hstored.
  { intros n. specialize (Hnostream n). unfold awaited.
    destruct (task_end _) as [| |inv|out|inv]; try done; [|by eauto].
    by destruct (Hnostream inv). }
  assert (∀ n, ready net prompt h n = true →
               awaited (task_of net prompt false (streamCallback ps) h n)
               = None) as Hready.
  { intros n (l & Hl & Hp)%ready_get.
    rewrite (task_of_passing _ _ _ _ _ _ _ Hl Hp). cbv zeta.
    by destruct (kind _). }
  pose proof (execute_dispatched net prompt ps h) as Hd.
  pose proof (execute_outcome net prompt ps h) as Ho.
  pose proof (execute_tasks net prompt ps h) as Ht.
  cbv zeta in Hd, Ho, Ht. rewrite Hst in Ht.
  set (f := task_of net prompt false (streamCallback ps) h) in *.
  split; intros Hmulti; rewrite Hmulti in *; unfold selected in *.
  - destruct (inferAgents_cons net prompt false) as (first & rest & Hn).
    exists first, rest. rewrite Hn in *. simpl in Hd, Ht.
    split; [done|]. split; [done|].
    rewrite Ho, Ht, Promise_all_single. split.
    + intros m Hm. destruct (awaited (f first)) eqn:Ha; simpl in Hm; [done|].
      destruct (Hstored _ Ha) as [out Hout].
      injection Hm as <-. unfold result_of. simpl. fold f. rewrite Hout.
      assert (task_name (f first) = first) as -> by apply task_of_name.
      rewrite insert_empty.
      split; [apply map_size_singleton | by eexists].
    + intros Hr. rewrite (Hready _ Hr). by eexists.
  - split; [done|].
    assert (∀ m, outcome (execute net prompt ps h) = inr m →
                 ∀ n, is_Some (m !! n)
                      ↔ n ∈ (inferAgents net prompt true).2) as Hkeys.
    { intros m Hm n. rewrite Ho, Ht in Hm.
      destruct (Promise_all (f <$> _)) eqn:Hp; [done|].
      injection Hm as <-.
      rewrite Promise_all_none in Hp. rewrite result_of_lookup. split.
      - intros (t & out & (n' & -> & Hin)%list_elem_of_fmap & <- & _).
        unfold f. by rewrite task_of_name.
      - intros Hin.
        destruct (Hstored n) as [out Hout].
        { apply Hp. by apply list_elem_of_fmap_2. }
        exists (f n), out. split; [by apply list_elem_of_fmap_2|].
        split; [apply task_of_name|done]. }
    split; [done|]. split.
    + intros m Hm Hnd. specialize (Hkeys m Hm).
      rewrite <- size_dom.
      assert (dom m = list_to_set (inferAgents net prompt true).2) as ->.
      { apply set_eq. intros n.
        by rewrite elem_of_dom, Hkeys, elem_of_list_to_set. }
      by apply size_list_to_set.
    + intros Hall. rewrite Ho, Ht.
      assert (Promise_all (f <$> (inferAgents net prompt true).2) = None)
        as ->; [|by eexists].
      apply Promise_all_none.
      intros t (n & -> & Hin)%list_elem_of_fmap. apply Hready. by apply Hall.
Qed.


(** ** Further properties *)

(** *** [trim] *)

Lemma whitespace_not_comma c : isWhiteSpace c = true → c ≠ comma.
Proof. intros H ->. by vm_compute in H. Qed.

Lemma trimStart_clean s : clean_start (trimStart s) = true.
Proof.
  induction s as [|c s IH]; simpl; [done|].
  destruct (isWhiteSpace c) eqn:E; [done|]. simpl. by rewrite E.
Qed.

Lemma trimStart_id s : clean_start s = true → trimStart s = s.
Proof. destruct s as [|c s]; simpl; [done|]. by destruct (isWhiteSpace c). Qed.

Lemma trimStart_ws w s :
  Forall (λ c, isWhiteSpace c = true) w → trimStart (w ++ s) = trimStart s.
Proof. induction 1 as [|c w Hc _ IH]; simpl; [done|]. by rewrite Hc. Qed.

Lemma trimStart_suffix s :
  ∃ w, s = w ++ trimStart s ∧ Forall (λ c, isWhiteSpace c = true) w.
Proof.
  induction s as [|c s (w & Hw & Hall)]; simpl.
  - by exists [].
  - destruct (isWhiteSpace c) eqn:E.
    + exists (c :: w). split; [by rewrite Hw at 1 | by constructor].
    + by exists [].
Qed.

Lemma trimEnd_clean s : clean_end (trimEnd s) = true.
Proof.
  unfold clean_end, trimEnd. rewrite reverse_involutive.
  apply trimStart_clean.
Qed.

Lemma trimEnd_id s : clean_end s = true → trimEnd s = s.
Proof.
  unfold clean_end, trimEnd. intros H.
  by rewrite (trimStart_id _ H), reverse_involutive.
Qed.

Lemma trimEnd_ws s w :
  Forall (λ c, isWhiteSpace c = true) w → trimEnd (s ++ w) = trimEnd s.
Proof.
  intros Hw. unfold trimEnd. rewrite reverse_app.
  by rewrite trimStart_ws by by apply Forall_reverse.
Qed.

Lemma trimEnd_prefix s :
  ∃ w, s = trimEnd s ++ w ∧ Forall (λ c, isWhiteSpace c = true) w.
Proof.
  destruct (trimStart_suffix (reverse s)) as (w & Hw & Hall).
  exists (reverse w). split; [|by apply Forall_reverse].
  unfold trimEnd. rewrite <- reverse_app, <- Hw.
  by rewrite reverse_involutive.
Qed.

Lemma trimEnd_clean_start s :
  clean_start s = true → clean_start (trimEnd s) = true.
Proof.
  intros H. destruct (trimEnd_prefix s) as (w & Hw & _).
  destruct (trimEnd s) as [|c r]; [done|].
  rewrite Hw in H. exact H.
Qed.

Lemma trim_clean s : clean_start (trim s) = true ∧ clean_end (trim s) = true.
Proof.
  unfold trim. split; [|apply trimEnd_clean].
  apply trimEnd_clean_start, trimStart_clean.
Qed.

Lemma trim_id s : clean_start s = true → clean_end s = true → trim s = s.
Proof.
  intros Hs He. unfold trim. rewrite (trimStart_id _ Hs).
  by apply trimEnd_id.
Qed.

Lemma trim_fixed s :
  trim s = s ↔ clean_start s = true ∧ clean_end s = true.
Proof.
  split.
  - intros H. rewrite <- H. apply trim_clean.
  - intros [Hs He]. by apply trim_id.
Qed.

Lemma trim_ws_cons c s : isWhiteSpace c = true → trim (c :: s) = trim s.
Proof. intros H. unfold trim. simpl. by rewrite H. Qed.

Lemma trim_app_ws s w :
  Forall (λ c, isWhiteSpace c = true) w → trim (s ++ w) = trim s.
Proof.
  intros Hw. unfold trim.
  destruct (trimStart_suffix s) as (w0 & Hs & Hw0).
  pose proof (trimStart_clean s) as Hc.
  destruct (trimStart s) as [|c r] eqn:E.
  - rewrite app_nil_r in Hs. subst w0.
    assert (trimStart (s ++ w) = []) as ->; [|done].
    rewrite <- (app_nil_r (s ++ w)).
    rewrite trimStart_ws; [done|]. by apply Forall_app.
  - rewrite Hs at 1. rewrite <- app_assoc.
    rewrite trimStart_ws by done.
    rewrite (trimStart_id ((c :: r) ++ w)) by exact Hc.
    by apply trimEnd_ws.
Qed.

Lemma elem_of_trim c s : c ∈ trim s → c ∈ s.
Proof.
  intros H. unfold trim in H.
  destruct (trimEnd_prefix (trimStart s)) as (w & Hw & _).
  destruct (trimStart_suffix s) as (w0 & Hs & _).
  rewrite Hs. apply elem_of_app. right.
  rewrite Hw. apply elem_of_app. by left.
Qed.

Lemma commas_trim s : commas (trim s) = commas s.
Proof.
  assert (∀ w, Forall (λ c, isWhiteSpace c = true) w → commas w = 0%nat)
    as Hws.
  { unfold commas. induction 1 as [|c w Hc _ IH]; [done|].
    rewrite filter_cons_False by by apply whitespace_not_comma. done. }
  unfold trim.
  destruct (trimEnd_prefix (trimStart s)) as (w & Hw & Hall).
  destruct (trimStart_suffix s) as (w0 & Hs & Hall0).
  rewrite Hs at 2. rewrite Hw at 2. unfold commas in *.
  rewrite !filter_app, !length_app, (Hws w Hall), (Hws w0 Hall0). lia.
Qed.

(** *** [split] and [join] *)

Lemma split_cons_form sep s :
  split sep s = hd [] (split sep s) :: tl (split sep s).
Proof.
  unfold split. by destruct (split_from_cons sep [] s) as (w & ws & ->).
Qed.

Lemma split_from_acc sep cur s :
  split_from sep cur s
  = (reverse cur ++ hd [] (split sep s)) :: tl (split sep s).
Proof.
  unfold split. revert cur. induction s as [|c s IH]; intros cur; simpl.
  - by rewrite app_nil_r.
  - destruct (c =? sep) eqn:E; simpl.
    + by rewrite app_nil_r.
    + rewrite (IH (c :: cur)), (IH [c]). simpl.
      by rewrite reverse_cons, <- app_assoc.
Qed.

Lemma split_cons_sep sep s : split sep (sep :: s) = [] :: split sep s.
Proof. unfold split. simpl. by rewrite N.eqb_refl. Qed.

Lemma split_cons_other sep c s :
  c ≠ sep →
  split sep (c :: s) = (c :: hd [] (split sep s)) :: tl (split sep s).
Proof.
  intros Hc. unfold split at 1. simpl.
  apply N.eqb_neq in Hc. rewrite Hc. by rewrite split_from_acc.
Qed.

Lemma split_pieces sep s w : w ∈ split sep s → sep ∉ w.
Proof.
  revert w. induction s as [|c s IH]; intros w Hw.
  - apply list_elem_of_singleton in Hw as ->. apply not_elem_of_nil.
  - destruct (decide (c = sep)) as [->|Hc].
    + rewrite split_cons_sep in Hw.
      apply elem_of_cons in Hw as [->|Hw]; [apply not_elem_of_nil|by apply IH].
    + rewrite (split_cons_other _ _ _ Hc) in Hw.
      rewrite (split_cons_form sep s) in IH.
      apply elem_of_cons in Hw as [->|Hw].
      * apply not_elem_of_cons. split; [done|].
        apply IH, list_elem_of_here.
      * by apply IH, list_elem_of_further.
Qed.

Lemma length_split_comma s : length (split comma s) = S (commas s).
Proof.
  induction s as [|c s IH]; [done|].
  destruct (decide (c = comma)) as [->|Hc].
  - rewrite split_cons_sep. unfold commas in *.
    rewrite filter_cons_True by done. simpl. by rewrite IH.
  - rewrite (split_cons_other _ _ _ Hc). unfold commas in *.
    rewrite filter_cons_False by done.
    rewrite (split_cons_form comma s) in IH. exact IH.
Qed.

Lemma join_cons_head sep c x l :
  join sep ((c :: x) :: l) = c :: join sep (x :: l).
Proof. by destruct l. Qed.

Lemma join_cons_next sep a b l :
  join sep (a :: b :: l) = a ++ sep ++ join sep (b :: l).
Proof. done. Qed.

Lemma join_split sep s : join [sep] (split sep s) = s.
Proof.
  induction s as [|c s IH]; [done|].
  rewrite (split_cons_form sep s) in IH.
  destruct (decide (c = sep)) as [->|Hc].
  - rewrite split_cons_sep, (split_cons_form sep s), join_cons_next.
    simpl. f_equal. exact IH.
  - rewrite (split_cons_other _ _ _ Hc), join_cons_head. f_equal. exact IH.
Qed.

Lemma split_nosep sep n : sep ∉ n → split sep n = [n].
Proof.
  induction n as [|c n IH]; intros Hn; [done|].
  apply not_elem_of_cons in Hn as [Hc Hn].
  rewrite split_cons_other by done. by rewrite (IH Hn).
Qed.

Lemma split_app_sep sep n t :
  sep ∉ n → split sep (n ++ sep :: t) = n :: split sep t.
Proof.
  induction n as [|c n IH]; intros Hn; simpl.
  - apply split_cons_sep.
  - apply not_elem_of_cons in Hn as [Hc Hn].
    rewrite split_cons_other by done. by rewrite (IH Hn).
Qed.

Lemma split_join sep names :
  names ≠ [] → (∀ n, n ∈ names → sep ∉ n) →
  split sep (join [sep] names) = names.
Proof.
  induction names as [|n [|n' ns] IH]; intros Hne Hall; [done| |].
  - simpl. apply split_nosep, Hall, list_elem_of_here.
  - rewrite join_cons_next. simpl.
    rewrite split_app_sep by apply Hall, list_elem_of_here.
    f_equal. apply IH; [done|].
    intros m Hm. by apply Hall, list_elem_of_further.
Qed.

Lemma join_snoc_app sep l x w :
  join sep (l ++ [x]) ++ w = join sep (l ++ [x ++ w]).
Proof.
  induction l as [|a l IH]; [done|].
  destruct l as [|b l]; simpl in *.
  - by rewrite <- !app_assoc.
  - rewrite <- !app_assoc. by rewrite IH.
Qed.

Lemma split_app_nosep sep u w :
  sep ∉ w →
  ∃ init last,
    split sep u = init ++ [last] ∧ split sep (u ++ w) = init ++ [last ++ w].
Proof.
  intros Hw.
  assert (split sep u ≠ []) as Hne by (by rewrite split_cons_form).
  destruct (exists_last Hne) as (init & last & Hu).
  exists init, last. split; [done|].
  rewrite <- (join_split sep u) at 1. rewrite Hu, join_snoc_app.
  apply split_join; [by destruct init|].
  intros n [Hn|Hn%list_elem_of_singleton]%elem_of_app.
  - apply (split_pieces sep u). rewrite Hu. apply elem_of_app. by left.
  - subst n. apply not_elem_of_app. split; [|done].
    apply (split_pieces sep u). rewrite Hu. apply elem_of_app. right.
    apply list_elem_of_here.
Qed.

(** The trim of the whole text before the split changes no name. *)
Lemma parseAgentNames_inner text :
  parseAgentNames text = trim <$> split comma text.
Proof.
  unfold parseAgentNames.
  assert (∀ t, trim <$> split comma (trimStart t) = trim <$> split comma t)
    as Hstart.
  { induction t as [|c t IH]; [done|]. simpl.
    destruct (isWhiteSpace c) eqn:E; [|done].
    rewrite (split_cons_other comma c t) by by apply whitespace_not_comma.
    rewrite IH, (split_cons_form comma t) at 1. simpl.
    by rewrite (trim_ws_cons _ _ E). }
  rewrite <- (Hstart text). unfold trim at 2.
  destruct (trimEnd_prefix (trimStart text)) as (w & Hw & Hall).
  destruct (split_app_nosep comma (trimEnd (trimStart text)) w)
    as (init & last & Hu & Huw).
  { intros Hin. rewrite Forall_forall in Hall.
    by apply (whitespace_not_comma _ (Hall _ Hin)). }
  rewrite Hw at 2. rewrite Hu, Huw, !fmap_app. simpl.
  by rewrite (trim_app_ws _ _ Hall).
Qed.

Lemma parseAgentNames_clean text n :
  n ∈ parseAgentNames text → (comma ∉ n) ∧ trim n = n.
Proof.
  unfold parseAgentNames. intros (w & -> & Hw)%list_elem_of_fmap. split.
  - intros Hc%elem_of_trim. by apply (split_pieces _ _ _ Hw).
  - apply trim_fixed, trim_clean.
Qed.

(** *** The names read from the selection text *)

(** X1. The names read from a text are, in order, the pieces of the
    text between its commas, each trimmed: the pieces joined with commas
    are the text, there is one more name than the text has commas, so that
    no piece is dropped, merged or removed as a duplicate, and a piece of
    white space only gives the empty name. *)
Theorem parseAgentNames_pieces text :
  parseAgentNames text = trim <$> split comma text
  ∧ join [comma] (split comma text) = text
  ∧ length (parseAgentNames text) = S (commas text)
  ∧ (∀ i piece,
       split comma text !! i = Some piece →
       Forall (λ c, isWhiteSpace c = true) piece →
       parseAgentNames text !! i = Some []).
Proof.
  split; [apply parseAgentNames_inner|]. split; [apply join_split|]. split.
  - unfold parseAgentNames.
    by rewrite length_fmap, length_split_comma, commas_trim.
  - intros i piece Hi Hws.
    rewrite parseAgentNames_inner, list_lookup_fmap.
    replace (split comma text !! i) with (Some piece). simpl. f_equal.
    by rewrite <- (app_nil_l piece), trim_app_ws.
Qed.

(** Splitting at the commas and joining with commas are inverse:
    the pieces of a text have no comma and joined with commas give the
    text back, and a non-empty list of comma-free strings joined with
    commas splits into the same list. *)
Lemma split_join_inverse :
  (∀ s, join [comma] (split comma s) = s
        ∧ ∀ w, w ∈ split comma s → comma ∉ w)
  ∧ (∀ names,
       names ≠ [] → (∀ n, n ∈ names → comma ∉ n) →
       split comma (join [comma] names) = names).
Proof.
  split.
  - intros s. split; [apply join_split | apply split_pieces].
  - apply split_join.
Qed.

(** X2. The list format of the selection prompt reads back: a non-empty
    list of names that have no comma and no white space at their ends,
    joined with [", "] as the prompt lists the registered names, is read
    as that same list. *)
Theorem parseAgentNames_listed names :
  names ≠ [] →
  (∀ n, n ∈ names → (comma ∉ n) ∧ trim n = n) →
  parseAgentNames (join (lit ", ") names) = names.
Proof.
  intros Hne Hall. rewrite parseAgentNames_inner.
  destruct names as [|n ns]; [done|]. clear Hne.
  assert (∀ m ms, join (lit ", ") (m :: ms)
                  = join [comma] (m :: ((λ x, 32 :: x) <$> ms))) as Hjoin.
  { intros m ms. revert m. induction ms as [|m' ms IH]; intros m; [done|].
    rewrite fmap_cons, !join_cons_next, IH, join_cons_head.
    by change (lit ", ") with [comma; 32]. }
  rewrite Hjoin, split_join.
  - rewrite fmap_cons. f_equal; [apply Hall, list_elem_of_here|].
    rewrite <- list_fmap_compose.
    rewrite <- (list_fmap_id ns) at 2. apply list_fmap_ext.
    intros _ m Hm%list_elem_of_lookup_2. simpl.
    rewrite trim_ws_cons by done.
    by apply Hall, list_elem_of_further.
  - done.
  - intros m [->|(m' & -> & Hm)%list_elem_of_fmap]%elem_of_cons.
    + apply Hall, list_elem_of_here.
    + apply not_elem_of_cons. split; [done|].
      by apply Hall, list_elem_of_further.
Qed.

Lemma selected_elem multi names n : n ∈ selected multi names → n ∈ names.
Proof.
  unfold selected. destruct multi; [done|].
  intros (i & Hi & _)%elem_of_take. by eapply list_elem_of_lookup_2.
Qed.

(** X3. A name dispatched by [execute] has no comma and no white space
    at either end, so an agent registered only under a name with a comma,
    or with white space at an end, is never run by a call. *)
Theorem dispatched_names_clean net prompt ps h n :
  n ∈ dispatched (execute net prompt ps h) →
  (comma ∉ n) ∧ trim n = n
  ∧ clean_start n = true ∧ clean_end n = true.
Proof.
  rewrite execute_dispatched. cbv zeta. intros Hn%selected_elem.
  apply parseAgentNames_clean in Hn as [Hc Ht].
  split; [done|]. split; [done|]. by apply trim_fixed.
Qed.

(** *** The registry *)

Lemma JsMap_get_set {V} k (v : V) m : JsMap.get k (JsMap.set k v m) = Some v.
Proof.
  induction m as [|[k' v'] m IH]; cbn [JsMap.get JsMap.set].
  - by rewrite decide_True.
  - destruct (decide (k = k')) as [->|Hne]; cbn [JsMap.get].
    + by rewrite decide_True.
    + by rewrite decide_False.
Qed.

Lemma JsMap_get_set_ne {V} k k' (v : V) m :
  k' ≠ k → JsMap.get k' (JsMap.set k v m) = JsMap.get k' m.
Proof.
  intros Hne. induction m as [|[k0 v0] m IH]; cbn [JsMap.get JsMap.set].
  - by rewrite decide_False.
  - destruct (decide (k = k0)) as [->|Hk]; cbn [JsMap.get].
    + by rewrite !decide_False.
    + destruct (decide (k' = k0)); [done|]. exact IH.
Qed.

Lemma JsMap_keys_set {V} k (v : V) m :
  JsMap.keys (JsMap.set k v m)
  = if decide (k ∈ JsMap.keys m) then JsMap.keys m else JsMap.keys m ++ [k].
Proof.
  unfold JsMap.keys. induction m as [|[k' v'] m IH]; cbn [JsMap.set].
  - rewrite decide_False; [done|apply not_elem_of_nil].
  - rewrite !fmap_cons. cbn [fst].
    destruct (decide (k = k')) as [->|Hne].
    + rewrite fmap_cons. cbn [fst].
      rewrite decide_True; [done|apply list_elem_of_here].
    + rewrite fmap_cons. cbn [fst]. rewrite IH.
      destruct (decide (k ∈ m.*1)) as [Hin|Hnin].
      * rewrite decide_True; [done|by apply list_elem_of_further].
      * rewrite decide_False; [done|].
        by intros [?|?]%elem_of_cons.
Qed.

Lemma JsMap_get_keys {V} k (m : JsMap.t V) :
  is_Some (JsMap.get k m) ↔ k ∈ JsMap.keys m.
Proof.
  unfold JsMap.keys. induction m as [|[k' v'] m IH]; cbn [JsMap.get].
  - split; [by intros [? ?]|by intros ?%elem_of_nil].
  - rewrite fmap_cons. cbn [fst].
    destruct (decide (k = k')) as [->|Hne].
    + split; [intros _; apply list_elem_of_here|by eexists].
    + rewrite IH. split; [by apply list_elem_of_further|].
      by intros [?|?]%elem_of_cons.
Qed.

(** X4. After [registerAgent(name, agent)] the name leads to that agent,
    every other name leads where it led before, and the default model is
    unchanged: registering a name again replaces its agent. *)
Theorem registerAgent_lookup name l net :
  JsMap.get name (agents (registerAgent name l net)) = Some l
  ∧ (∀ name', name' ≠ name →
       JsMap.get name' (agents (registerAgent name l net))
       = JsMap.get name' (agents net))
  ∧ defaultModel (registerAgent name l net) = defaultModel net.
Proof.
  split; [apply JsMap_get_set|]. split; [|done].
  intros name' Hne. by apply JsMap_get_set_ne.
Qed.

(** X5. [registerAgent] keeps the names of the registry in the order of
    their first registration: a new name goes last, a name registered
    again keeps its place, and no name ever occurs twice. The selection
    call, which lists the names, is therefore the same after a name is
    registered again with another agent. *)
Theorem registerAgent_keys name l net :
  JsMap.keys (agents (registerAgent name l net))
  = (if decide (name ∈ JsMap.keys (agents net))
     then JsMap.keys (agents net)
     else JsMap.keys (agents net) ++ [name])
  ∧ (NoDup (JsMap.keys (agents net)) →
     NoDup (JsMap.keys (agents (registerAgent name l net))))
  ∧ (is_Some (JsMap.get name (agents net)) →
     ∀ prompt multi,
       inferAgents (registerAgent name l net) prompt multi
       = inferAgents net prompt multi).
Proof.
  assert (JsMap.keys (agents (registerAgent name l net))
          = (if decide (name ∈ JsMap.keys (agents net))
             then JsMap.keys (agents net)
             else JsMap.keys (agents net) ++ [name])) as Hkeys
    by apply JsMap_keys_set.
  split; [done|]. split.
  - intros Hnd. rewrite Hkeys. case_decide as Hin; [done|].
    apply NoDup_app. split; [done|]. split; [|apply NoDup_singleton].
    intros x Hx ->%list_elem_of_singleton. done.
  - intros Hreg%JsMap_get_keys prompt multi.
    unfold inferAgents. rewrite Hkeys. by rewrite decide_True.
Qed.

(** *** When a call returns *)

Lemma drain_finished cbo textStream :
  (drain cbo textStream).2 = true
  ↔ ∀ callback, cbo = Some callback →
                ∀ f, f ∈ textStream → callback f = Returns.
Proof.
  destruct cbo as [callback|].
  2:{ rewrite drain_absent. split; [by intros _ ? [=]|done]. }
  pose proof (stream_end_forwarded callback textStream) as Hf.
  unfold stream_end in Hf.
  destruct (drain (Some callback) textStream) as [invoked finished].
  destruct Hf as [[Hall He] | (before & f & after & Hxs & _ & Hthrows & He)].
  - destruct finished; [|done]. split; [|done].
    by intros _ cb [= <-].
  - destruct finished; [done|]. simpl. split; [done|].
    intros Hall. rewrite (Hall callback eq_refl) in Hthrows; [done|].
    rewrite Hxs. apply elem_of_app. right. apply list_elem_of_here.
Qed.

Lemma awaited_task_of net prompt stream cb h name :
  awaited (task_of net prompt stream cb h name) = None
  ↔ ∃ l, JsMap.get name (agents net) = Some l
         ∧ passes net prompt (h l) = true
         ∧ (stream = true →
            (drain cb (fragments net prompt (h l))).2 = true).
Proof.
  destruct (JsMap.get name (agents net)) as [l|] eqn:Hg.
  - transitivity
      (passes net prompt (h l) = true
       ∧ (stream = true →
          (drain cb (fragments net prompt (h l))).2 = true)).
    2:{ split; [intros [? ?]; by exists l|].
        by intros (l' & [= <-] & ? & ?). }
    destruct (passes net prompt (h l)) eqn:Hp.
    + rewrite (task_of_passing _ _ _ _ _ _ _ Hg Hp). cbv zeta.
      unfold fragments. rewrite merged_kind.
      destruct stream, (kind (h l)); unfold awaited, stream_end; simpl.
      1,2: destruct (drain cb _) as [invoked []]; simpl.
      all: split; [by intros; split|intros [_ Hd]]; try done.
      all: by specialize (Hd eq_refl).
    + rewrite (task_of_failing _ _ _ _ _ _ _ Hg Hp).
      split; [by destruct stream|by intros [? _]].
  - rewrite (task_of_unregistered _ _ _ _ _ _ Hg).
    split; [done|]. by intros (l & [=] & _).
Qed.

Lemma ready_spec net prompt h name :
  ready net prompt h name = true
  ↔ ∃ l, JsMap.get name (agents net) = Some l
         ∧ prompt ≠ []
         ∧ truthy (js_or (prop (parameters (h l)) k_model)
                     (defaultModel net)) = true
         ∧ (kind (h l) = ObjectAgent →
            truthy (prop (parameters (h l)) k_schema) = true).
Proof.
  unfold ready. destruct (JsMap.get name (agents net)) as [l|].
  - rewrite passes_spec. unfold effective_model. split.
    + intros [[Hp Hm]%andb_prop Hs]%andb_prop.
      exists l. split; [done|]. split.
      { intros ->. done. }
      split; [done|]. intros Hk. by rewrite Hk in Hs.
    + intros (l' & [= <-] & Hp & Hm & Hs). rewrite Hm.
      rewrite bool_decide_eq_false_2 by done. simpl.
      destruct (kind (h l)); [done|by apply Hs].
  - split; [done|]. by intros (l & [=] & _).
Qed.

Lemma execute_returns_settled net prompt ps h :
  (∃ m, outcome (execute net prompt ps h) = inr m)
  ↔ ∀ n, n ∈ dispatched (execute net prompt ps h) →
         ∃ l, JsMap.get n (agents net) = Some l
              ∧ passes net prompt (h l) = true
              ∧ (default false (stream ps) = true →
                 (drain (streamCallback ps)
                    (fragments net prompt (h l))).2 = true).
Proof.
  rewrite execute_outcome, execute_dispatched, execute_tasks. cbv zeta.
  set (names := selected _ _).
  set (f := task_of net prompt _ _ h).
  assert (Promise_all (f <$> names) = None
          ↔ ∀ n, n ∈ names → awaited (f n) = None) as Hall.
  { rewrite Promise_all_none. split.
    - intros H n Hn. apply H. by apply list_elem_of_fmap_2.
    - intros H t (n & -> & Hn)%list_elem_of_fmap. by apply H. }
  split.
  - intros [m Hm] n Hn. apply awaited_task_of. apply Hall; [|done].
    by destruct (Promise_all (f <$> names)).
  - intros H. assert (Promise_all (f <$> names) = None) as ->.
    { apply Hall. intros n Hn. apply awaited_task_of. by apply H. }
    by eexists.
Qed.

(** X6. A call of [execute] returns a result map exactly when, for
    every name it dispatches: the name is registered, the prompt is not
    empty, the agent has a truthy model of its own or the network has a
    truthy default, an object agent has a truthy schema, and, in a
    streaming call with a callback, the callback throws on no fragment of
    the stream of the agent; otherwise the call rejects. *)
Theorem execute_returns_iff net prompt ps h :
  (∃ m, outcome (execute net prompt ps h) = inr m)
  ↔ ∀ n, n ∈ dispatched (execute net prompt ps h) →
         ∃ l, JsMap.get n (agents net) = Some l
              ∧ prompt ≠ []
              ∧ truthy (js_or (prop (parameters (h l)) k_model)
                          (defaultModel net)) = true
              ∧ (kind (h l) = ObjectAgent →
                 truthy (prop (parameters (h l)) k_schema) = true)
              ∧ (default false (stream ps) = true →
                 ∀ callback, streamCallback ps = Some callback →
                 ∀ f, f ∈ fragments net prompt (h l) →
                      callback f = Returns).
Proof.
  rewrite execute_returns_settled. split.
  - intros H n Hn. destruct (H n Hn) as (l & Hg & Hp & Hd).
    destruct (proj1 (ready_spec net prompt h n)) as (l' & Hg' & Hrest).
    { unfold ready. by rewrite Hg. }
    rewrite Hg in Hg'. injection Hg' as <-.
    exists l. split; [done|]. destruct Hrest as (? & ? & ?).
    repeat (split; [done|]).
    intros Hst. by apply drain_finished, Hd.
  - intros H n Hn. destruct (H n Hn) as (l & Hg & Hne & Hm & Hs & Hd).
    exists l. split; [done|]. split.
    + assert (ready net prompt h n = true) as Hr.
      { apply ready_spec. exists l. by repeat split. }
      unfold ready in Hr. by rewrite Hg in Hr.
    + intros Hst. by apply drain_finished, Hd.
Qed.

(** X7. A call of [execute] with the empty prompt always rejects, and no
    agent reaches the generation library: the empty prompt replaces the
    prompt of every agent dispatched and fails its check. *)
Theorem empty_prompt_rejects net ps h :
  let r := execute net [] ps h in
  (∃ e, outcome r = inl e) ∧ ∀ t, t ∈ tasks r → task_calls t = [].
Proof.
  cbv zeta. split.
  - destruct (outcome (execute net [] ps h)) as [e|m] eqn:Ho; [by eexists|].
    assert (∃ m, outcome (execute net [] ps h) = inr m) as Hm by eauto.
    rewrite execute_returns_settled in Hm.
    destruct (inferAgents_cons net [] (default false (multipleAgents ps)))
      as (n & ns & Hn).
    destruct (Hm n) as (l & _ & Hp & _); [|by rewrite passes_spec in Hp].
    rewrite execute_dispatched. cbv zeta. rewrite Hn. unfold selected.
    destruct (default false (multipleAgents ps)); apply list_elem_of_here.
  - intros t Ht. rewrite execute_tasks in Ht. cbv zeta in Ht.
    apply list_elem_of_fmap in Ht as (n & -> & _).
    destruct (JsMap.get n (agents net)) as [l|] eqn:Hg.
    + rewrite (task_of_failing _ _ _ _ _ _ l Hg); [done|].
      by rewrite passes_spec.
    + by rewrite (task_of_unregistered _ _ _ _ _ _ Hg).
Qed.

(** X8. Every call of the generation library made for an agent is the
    only call of its task, carries the prompt given to [execute], which
    is not empty, a truthy model and, for an object agent, a truthy
    schema, and is the operation of the class of the agent and of the
    mode of the call. *)
Theorem generation_calls_are_checked net prompt ps h t c :
  t ∈ tasks (execute net prompt ps h) →
  c ∈ task_calls t →
  task_calls t = [c]
  ∧ args c !! k_prompt = Some (VStr prompt)
  ∧ prompt ≠ []
  ∧ truthy (prop (args c) k_model) = true
  ∧ ∃ l, JsMap.get (task_name t) (agents net) = Some l
         ∧ cap c = match kind (h l), default false (stream ps) with
                   | TextAgent, false => GenerateText
                   | TextAgent, true => StreamText
                   | ObjectAgent, false => GenerateObject
                   | ObjectAgent, true => StreamObject
                   end
         ∧ (kind (h l) = ObjectAgent →
            truthy (prop (args c) k_schema) = true).
Proof.
  intros Ht Hc. rewrite execute_tasks in Ht. cbv zeta in Ht.
  apply list_elem_of_fmap in Ht as (n & -> & _).
  rewrite task_of_name.
  destruct (ready net prompt h n) eqn:Hr.
  2:{ rewrite (task_of_failing_calls _ _ _ _ _ _ Hr) in Hc.
      by apply elem_of_nil in Hc. }
  apply ready_get in Hr as (l & Hg & Hp).
  rewrite (task_of_passing_calls _ _ _ _ _ _ _ Hg Hp) in *.
  apply list_elem_of_singleton in Hc as ->.
  rewrite passes_spec in Hp.
  apply andb_prop in Hp as [[Hne Hm]%andb_prop Hs].
  split; [done|]. cbn [args cap]. split; [apply merged_prompt|].
  split. { intros ->. done. }
  split. { unfold prop. by rewrite merged_model. }
  exists l. split; [done|]. split; [done|].
  intros Hk. rewrite Hk in Hs. unfold prop.
  by rewrite merged_other by (by vm_compute).
Qed.

(** *** What a call leaves behind *)

Lemma reaches_false net names l :
  (∀ n, n ∈ names → JsMap.get n (agents net) ≠ Some l) →
  reaches net names l = false.
Proof.
  intros H. unfold reaches. apply not_true_is_false.
  intros (n & Hn & Hg)%existsb_exists.
  apply bool_decide_eq_true in Hg. apply list_elem_of_In in Hn.
  by apply (H n).
Qed.

(** X9. A call changes only the agents it dispatches: an agent that no
    dispatched name leads to is left as it was, prompt and model
    included, also when a name selected but not dispatched leads to it. *)
Theorem unreached_agents_unchanged net prompt ps h l :
  (∀ n, n ∈ dispatched (execute net prompt ps h) →
        JsMap.get n (agents net) ≠ Some l) →
  store (execute net prompt ps h) l = h l.
Proof.
  intros H. rewrite execute_store. cbv zeta.
  rewrite execute_dispatched in H. cbv zeta in H.
  by rewrite (reaches_false _ _ _ H).
Qed.

(** X10. A call writes the model it ran an agent with into the agent:
    after the call the model of a dispatched agent is its own former model
    if that was truthy and the default of the network otherwise. When that
    model is truthy, the agent keeps it under any network: the default
    model of a later call no longer applies to it. *)
Theorem default_model_is_pinned net prompt ps h name l :
  name ∈ dispatched (execute net prompt ps h) →
  JsMap.get name (agents net) = Some l →
  let own := prop (parameters (h l)) k_model in
  let after := parameters (store (execute net prompt ps h) l) in
  after !! k_model = Some (js_or own (defaultModel net))
  ∧ (truthy (js_or own (defaultModel net)) = true →
     ∀ net', js_or (prop after k_model) (defaultModel net')
             = js_or own (defaultModel net)).
Proof.
  intros Hn Hg. cbv zeta. rewrite execute_dispatched in Hn. cbv zeta in Hn.
  rewrite execute_store. cbv zeta. rewrite (reaches_elem _ _ _ _ Hn Hg).
  split; [apply merged_model|].
  intros Ht net'. unfold prop at 1. rewrite merged_model. simpl.
  unfold effective_model. unfold js_or at 1. by rewrite Ht.
Qed.

(** X11. Running the same call again on the store the first call left
    dispatches the same names, makes the same calls of the generation
    library with the same parameters, and leaves that store unchanged. *)
Theorem rerun_is_stable net prompt ps h :
  let r1 := execute net prompt ps h in
  let r2 := execute net prompt ps (store r1) in
  dispatched r2 = dispatched r1
  ∧ task_calls <$> tasks r2 = task_calls <$> tasks r1
  ∧ ∀ l, store r2 l = store r1 l.
Proof.
  cbv zeta. split; [by rewrite !execute_dispatched|]. split.
  - rewrite !execute_tasks. cbv zeta. f_equal.
    apply list_fmap_ext. intros _ n _.
    apply task_of_updated. intros l. rewrite execute_store. cbv zeta.
    destruct (reaches _ _ _); auto.
  - intros l. rewrite !execute_store. cbv zeta.
    destruct (reaches _ _ _); [|done]. apply merged_idemp.
Qed.

(** X12. A call that rejects is not undone: every registered name it
    dispatched has had the parameters of its agent updated, and every
    such agent that passes its check has had its call of the generation
    library made, with the updated parameters. *)
Theorem rejected_call_is_not_rolled_back net prompt ps h e name l :
  outcome (execute net prompt ps h) = inl e →
  name ∈ dispatched (execute net prompt ps h) →
  JsMap.get name (agents net) = Some l →
  store (execute net prompt ps h) l = merged net prompt (h l)
  ∧ (passes net prompt (h l) = true →
     ∃ t c, t ∈ tasks (execute net prompt ps h)
            ∧ task_name t = name
            ∧ task_calls t = [c]
            ∧ args c = parameters (merged net prompt (h l))).
Proof.
  intros _ Hn Hg. rewrite execute_dispatched in Hn. cbv zeta in Hn.
  split.
  - rewrite execute_store. cbv zeta. by rewrite (reaches_elem _ _ _ _ Hn Hg).
  - intros Hp. rewrite execute_tasks. cbv zeta.
    eexists _, _. split; [by apply list_elem_of_fmap_2|].
    rewrite task_of_name. split; [done|].
    by rewrite (task_of_passing_calls _ _ _ _ _ _ _ Hg Hp).
Qed.

(** *** The modes of a call *)

(** X13. [execute()] and [stream()] of an agent make the same check:
    one fails exactly when the other does, with the same error and without
    a call of the generation library, and when they succeed they pass the
    same parameters, those of the agent, to the library. *)
Theorem stream_and_execute_share_check a :
  (∀ e, (Agent_execute a).2 = inl e ↔ (Agent_stream a).2 = inl e)
  ∧ (∀ e, (Agent_execute a).2 = inl e →
          e = MissingParameter (kind a)
          ∧ (Agent_execute a).1 = [] ∧ (Agent_stream a).1 = [])
  ∧ args <$> (Agent_execute a).1 = args <$> (Agent_stream a).1
  ∧ ∀ c, c ∈ (Agent_execute a).1 → args c = parameters a.
Proof.
  rewrite Agent_execute_spec, Agent_stream_spec.
  destruct (all_truthy _ _).
  - destruct (kind a); simpl.
    all: split; [intros e; split; intros [=]|].
    all: split; [intros e [=]|].
    all: split; [done|].
    all: by intros c ->%list_elem_of_singleton.
  - simpl. split; [by intros e; split; intros [= <-]|].
    split; [by intros e [= <-]|].
    split; [done|]. by intros c ?%elem_of_nil.
Qed.

Lemma result_of_fmap_ext (f g : jsstring → task) names :
  (∀ n, task_name (f n) = task_name (g n)
        ∧ ∀ out, task_end (f n) = Stored out ↔ task_end (g n) = Stored out) →
  result_of (f <$> names) = result_of (g <$> names).
Proof.
  intros H. unfold result_of.
  generalize (∅ : gmap jsstring output).
  induction names as [|n names IH]; intros acc; simpl; [done|].
  destruct (H n) as [Hn He]. rewrite Hn.
  destruct (task_end (f n)) as [e1|e1|i1|o1|i1],
    (task_end (g n)) as [e2|e2|i2|o2|i2];
    try apply IH;
    try (by pose proof (proj1 (He _) eq_refl));
    try (by pose proof (proj2 (He _) eq_refl)).
  pose proof (proj1 (He o1) eq_refl) as [= ->]. apply IH.
Qed.

Lemma Promise_all_fmap_ext (f g : jsstring → task) names :
  (∀ n, thrown (f n) = thrown (g n) ∧ rejected (f n) = rejected (g n)) →
  Promise_all (f <$> names) = Promise_all (g <$> names).
Proof.
  intros H. unfold Promise_all.
  assert (∀ p q : task → option error,
            (∀ n, p (f n) = q (g n)) →
            omap p (f <$> names) = omap q (g <$> names)) as Hext.
  { intros p q Hpq. induction names as [|n names IH]; simpl; [done|].
    rewrite Hpq. destruct (q (g n)); [f_equal|]; exact IH. }
  rewrite (Hext thrown thrown), (Hext rejected rejected); [done| |];
    intros n; by destruct (H n).
Qed.

Lemma task_of_stored_callback net prompt stream cb cb' h n out :
  task_end (task_of net prompt stream cb h n) = Stored out
  ↔ task_end (task_of net prompt stream cb' h n) = Stored out.
Proof.
  destruct (JsMap.get n (agents net)) as [l|] eqn:Hg.
  - destruct (passes net prompt (h l)) eqn:Hp.
    + rewrite !(task_of_passing _ _ _ _ _ _ _ Hg Hp). cbv zeta.
      destruct stream, (kind _); simpl; try done.
      all: split; intros H; by apply stream_end_not_stored in H.
    + by rewrite !(task_of_failing _ _ _ _ _ _ _ Hg Hp).
  - by rewrite !(task_of_unregistered _ _ _ _ _ _ Hg).
Qed.

(** X14. A callback changes neither the names dispatched, nor the calls
    of the generation library, nor the store a call leaves; it can only
    make a streaming call reject, by throwing. So the same call without
    [streamCallback] returns whenever the call with it returns, it has the
    same outcome when the call does not stream or the callback never
    throws, and it drains every stream, calling nothing. *)
Theorem callback_is_optional net prompt multi st callback h :
  let r := execute net prompt (mkExecuteParams multi st None) h in
  let r' := execute net prompt (mkExecuteParams multi st (Some callback)) h in
  dispatched r = dispatched r'
  ∧ task_calls <$> tasks r = task_calls <$> tasks r'
  ∧ (∀ l, store r l = store r' l)
  ∧ (∀ t invoked, t ∈ tasks r →
       task_end t ≠ Interrupted invoked
       ∧ (task_end t = Streamed invoked → invoked = []))
  ∧ (∀ m, outcome r' = inr m → outcome r = inr m)
  ∧ (default false st = false ∨ (∀ f, callback f = Returns) →
     outcome r = outcome r').
Proof.
  cbv zeta.
  set (f0 := task_of net prompt (default false st) None h).
  set (f1 := task_of net prompt (default false st) (Some callback) h).
  assert (∀ n, task_calls (f0 n) = task_calls (f1 n)) as Hcalls.
  { intros n. unfold f0, f1. destruct (ready net prompt h n) eqn:Hr.
    - apply ready_get in Hr as (l & Hg & Hp).
      by rewrite !(task_of_passing_calls _ _ _ _ _ _ _ Hg Hp).
    - by rewrite !(task_of_failing_calls _ _ _ _ _ _ Hr). }
  assert (∀ n, task_name (f0 n) = task_name (f1 n)
               ∧ ∀ out, task_end (f0 n) = Stored out
                        ↔ task_end (f1 n) = Stored out) as Hstored.
  { intros n. unfold f0, f1. rewrite !task_of_name. split; [done|].
    intros out. apply task_of_stored_callback. }
  assert (default false st = false ∨ (∀ f, callback f = Returns) →
          ∀ n, thrown (f0 n) = thrown (f1 n)
               ∧ rejected (f0 n) = rejected (f1 n)) as Hends.
  { intros Hcond n. unfold f0, f1.
    rewrite !thrown_task_of, !rejected_task_of. split; [done|].
    destruct (JsMap.get n (agents net)) as [l|]; [|done].
    destruct (passes net prompt (h l)); [|done].
    rewrite drain_absent. simpl. rewrite andb_false_r.
    destruct Hcond as [-> | Hall]; [done|].
    assert ((drain (Some callback) (fragments net prompt (h l))).2 = true)
      as -> by (apply drain_finished; by intros cb [= <-] f _).
    by rewrite andb_false_r. }
  assert (∀ ps ps', default false (multipleAgents ps)
                    = default false (multipleAgents ps') →
                    selected (default false (multipleAgents ps))
                      (inferAgents net prompt
                         (default false (multipleAgents ps))).2
                    = selected (default false (multipleAgents ps'))
                        (inferAgents net prompt
                           (default false (multipleAgents ps'))).2)
    as Hsel by (by intros ps ps' ->).
  split; [by rewrite !execute_dispatched|]. split; [|split; [|split; [|split]]].
  - rewrite !execute_tasks. cbv zeta.
    cbn [multipleAgents stream streamCallback].
    rewrite <- !list_fmap_compose. apply list_fmap_ext. intros _ n _.
    apply Hcalls.
  - intros l. by rewrite !execute_store.
  - intros t invoked Ht. rewrite execute_tasks in Ht. cbv zeta in Ht.
    cbn [multipleAgents stream streamCallback] in Ht.
    apply list_elem_of_fmap in Ht as (n & -> & _).
    destruct (JsMap.get n (agents net)) as [l|] eqn:Hg.
    + destruct (passes net prompt (h l)) eqn:Hp.
      * rewrite (task_of_passing _ _ _ _ _ _ _ Hg Hp). cbv zeta.
        destruct (default false st), (kind _); simpl;
          rewrite ?stream_end_absent; split; try done.
        all: by intros [= <-].
      * rewrite (task_of_failing _ _ _ _ _ _ _ Hg Hp).
        by destruct (default false st).
    + by rewrite (task_of_unregistered _ _ _ _ _ _ Hg).
  - intros m Hm.
    assert (∃ m', outcome (execute net prompt
                             (mkExecuteParams multi st None) h) = inr m')
      as [m' Hm'].
    { apply execute_returns_settled. intros n Hn.
      assert (∃ m, outcome (execute net prompt
                (mkExecuteParams multi st (Some callback)) h) = inr m)
        as Hret by eauto.
      rewrite execute_returns_settled in Hret.
      rewrite execute_dispatched in Hn. cbv zeta in Hn.
      destruct (Hret n) as (l & Hg & Hp & _).
      { by rewrite execute_dispatched. }
      exists l. split; [done|]. split; [done|].
      intros _. cbn [streamCallback]. by rewrite drain_absent. }
    rewrite Hm'. rewrite execute_outcome in Hm, Hm'. cbv zeta in Hm, Hm'.
    rewrite !execute_tasks in Hm, Hm'. cbv zeta in Hm, Hm'.
    cbn [multipleAgents stream streamCallback] in Hm, Hm'.
    fold f0 in Hm'. fold f1 in Hm. unfold settle in Hm, Hm'.
    destruct (Promise_all (f0 <$> _)); [done|].
    destruct (Promise_all (f1 <$> _)); [done|].
    injection Hm as <-. injection Hm' as <-. f_equal.
    by apply result_of_fmap_ext.
  - intros Hcond. rewrite !execute_outcome. cbv zeta.
    rewrite !execute_tasks. cbv zeta.
    cbn [multipleAgents stream streamCallback]. fold f0 f1.
    rewrite (Promise_all_fmap_ext f0 f1) by by apply Hends.
    unfold settle. destruct (Promise_all _); [done|]. f_equal.
    by apply result_of_fmap_ext.
Qed.

(** X15. A streaming call rejects whenever the same call without
    streaming rejects, and conversely when no callback is given or the
    callback never throws; both dispatch the same names and leave the same
    store. *)
Theorem streaming_rejects_alike net prompt multi cbo h :
  let r := execute net prompt (mkExecuteParams multi (Some true) cbo) h in
  let r' := execute net prompt (mkExecuteParams multi (Some false) cbo) h in
  dispatched r = dispatched r'
  ∧ (∀ l, store r l = store r' l)
  ∧ ((∃ e, outcome r' = inl e) → ∃ e, outcome r = inl e)
  ∧ ((∀ callback, cbo = Some callback → ∀ f, callback f = Returns) →
     (∃ e, outcome r = inl e) → ∃ e, outcome r' = inl e).
Proof.
  cbv zeta.
  assert (∀ ps, (∃ e, outcome (execute net prompt ps h) = inl e)
                ↔ ¬ ∃ m, outcome (execute net prompt ps h) = inr m) as Hno.
  { intros ps. destruct (outcome _) as [e|m].
    - split; [by intros _ [m [=]]|by eauto].
    - split; [by intros [e [=]]|]. intros H. destruct H. eauto. }
  split; [by rewrite !execute_dispatched|]. split; [|split].
  - intros l. by rewrite !execute_store.
  - rewrite !Hno. intros Hrej Hret. apply Hrej.
    rewrite execute_returns_settled in *.
    rewrite execute_dispatched in *. cbv zeta in *.
    intros n Hn. destruct (Hret n Hn) as (l & Hg & Hp & _).
    exists l. by repeat split.
  - intros Hcb. rewrite !Hno. intros Hrej Hret. apply Hrej.
    rewrite execute_returns_settled in *.
    rewrite execute_dispatched in *. cbv zeta in *.
    intros n Hn. destruct (Hret n Hn) as (l & Hg & Hp & _).
    exists l. split; [done|]. split; [done|]. intros _.
    apply drain_finished. intros callback Hc f _. by apply (Hcb callback).
Qed.

End Orchestrator.

(** ** The model on concrete networks *)

Local Abbreviation scripted reply :=
  (execute Scripted.text_of (Scripted.generateText reply)
     (Scripted.streamText reply) Scripted.generateObject
     Scripted.streamObject Scripted.openai).

Local Abbreviation scripted_names reply :=
  (inferAgents Scripted.text_of (Scripted.generateText reply) Scripted.openai).

(** C1. When the selection call returns the empty text, [execute]
    dispatches the empty name and, no agent having that name, fails with
    AgentNotRegistered of the empty name, not with NoApplicableAgents. *)
Theorem empty_selection_text_dispatches_empty_name :
  let r := scripted [] Scripted.net0 (lit "hello")
             (mkExecuteParams None None None) Scripted.store0 in
  (scripted_names [] Scripted.net0 (lit "hello") false).2 = [[]]
  ∧ dispatched r = [[]]
  ∧ outcome r = inl (AgentNotRegistered [])
  ∧ outcome r ≠ inl NoApplicableAgents.
Proof. cbv zeta. repeat split; by vm_compute. Qed.

(** C2, as stated, fails: a text agent whose parameters contain both
    prompt and model, the prompt being the empty string, fails
    [execute()] with MissingParameter. *)
Lemma execute_rejects_empty_prompt :
  (∀ k, k ∈ required (kind Scripted.agent3) →
        is_Some (parameters Scripted.agent3 !! k))
  ∧ Agent_execute (Scripted.generateText []) Scripted.generateObject
      Scripted.agent3
    = ([], inl (MissingParameter TextAgent)).
Proof.
  split; [|by vm_compute].
  intros k Hk. simpl in Hk.
  apply elem_of_cons in Hk as [-> | Hk]; [by vm_compute; eexists|].
  apply list_elem_of_singleton in Hk as ->. by vm_compute; eexists.
Qed.

Lemma execute_checks_required_witness :
  ∃ c out,
    Agent_execute (Scripted.generateText []) Scripted.generateObject
      Scripted.agent4 = ([c], inr out)
    ∧ args c = parameters Scripted.agent4.
Proof.
  apply (proj1 (execute_checks_required (Scripted.generateText [])
                  Scripted.generateObject Scripted.agent4)).
  intros k Hk. simpl in Hk.
  apply elem_of_cons in Hk as [-> | Hk]; [by vm_compute|].
  apply list_elem_of_singleton in Hk as ->. by vm_compute.
Defined.

(** C3, as stated, fails: without [multipleAgents] a selected name
    after the first is not dispatched, so its missing registry entry
    raises nothing and the result map of the first agent is returned. *)
Lemma unregistered_second_name_not_raised :
  let r := scripted (lit "a,zzz") Scripted.net0 (lit "hello")
             (mkExecuteParams None None None) Scripted.store0 in
  (scripted_names (lit "a,zzz") Scripted.net0 (lit "hello") false).2
  = [lit "a"; lit "zzz"]
  ∧ JsMap.get (lit "zzz") (agents Scripted.net0) = None
  ∧ outcome r = inr {[ lit "a" := OutText (lit "re: hello") ]}.
Proof. cbv zeta. repeat split; by vm_compute. Qed.

Lemma unregistered_dispatch_rejects_witness :
  let r := scripted (lit "a,zzz,b") Scripted.net0 (lit "hello")
             (mkExecuteParams (Some true) None None) Scripted.store0 in
  outcome r = inl (AgentNotRegistered (lit "zzz")).
Proof.
  cbv zeta.
  refine (proj1 (proj2 (unregistered_dispatch_rejects
    Scripted.text_of (Scripted.generateText (lit "a,zzz,b"))
    (Scripted.streamText (lit "a,zzz,b")) Scripted.generateObject
    Scripted.streamObject Scripted.openai
    Scripted.net0 (lit "hello") (mkExecuteParams (Some true) None None)
    Scripted.store0 [lit "a"] (lit "zzz") [lit "b"] _ _ _)) _).
  - by vm_compute.
  - intros n Hn. apply list_elem_of_singleton in Hn as ->. by vm_compute.
  - by vm_compute.
  - reflexivity.
Defined.

Lemma model_precedence_witness :
  let r := scripted (lit "a,b") Scripted.net0 (lit "hello")
             (mkExecuteParams (Some true) None None) Scripted.store0 in
  (∃ t c, t ∈ tasks r ∧ task_name t = lit "a" ∧ task_calls t = [c]
          ∧ args c !! k_model = Some Scripted.M1)
  ∧ (∃ t c, t ∈ tasks r ∧ task_name t = lit "b" ∧ task_calls t = [c]
            ∧ args c !! k_model = Some Scripted.M2).
Proof.
  cbv zeta.
  pose proof (proj2 (model_precedence
    Scripted.text_of (Scripted.generateText (lit "a,b"))
    (Scripted.streamText (lit "a,b")) Scripted.generateObject
    Scripted.streamObject Scripted.openai
    Scripted.net0 (lit "hello") (mkExecuteParams (Some true) None None)
    Scripted.store0)) as H.
  split.
  - destruct (H (lit "a") 0%nat) as (Hown & _ & _); [|done|done|done|].
    + vm_compute. apply list_elem_of_here.
    + by apply Hown.
  - destruct (H (lit "b") 1%nat) as (_ & Hdefault & _); [|done|done|done|].
    + vm_compute. apply list_elem_of_further, list_elem_of_here.
    + by apply Hdefault.
Defined.

Lemma dispatch_touches_prompt_and_model_witness :
  let r := scripted (lit "a") Scripted.net0 (lit "hello")
             (mkExecuteParams None None None) Scripted.store0 in
  parameters (store r 0%nat) !! k_prompt = Some (VStr (lit "hello"))
  ∧ parameters (store r 0%nat) !! lit "system" = Some (VStr (lit "be brief")).
Proof.
  cbv zeta.
  pose proof (dispatch_touches_prompt_and_model
    Scripted.text_of (Scripted.generateText (lit "a"))
    (Scripted.streamText (lit "a")) Scripted.generateObject
    Scripted.streamObject Scripted.openai
    Scripted.net0 (lit "hello") (mkExecuteParams None None None)
    Scripted.store0) as (Hprompt & Hframe & _).
  split.
  - apply (Hprompt (lit "a") 0%nat); [|by vm_compute].
    vm_compute. apply list_elem_of_here.
  - rewrite (Hframe 0%nat (lit "system")); by vm_compute.
Defined.

Lemma dispatch_policy_witness :
  let r := scripted (lit " a , form,b ") Scripted.net0 (lit "hello")
             (mkExecuteParams (Some true) None None) Scripted.store0 in
  dispatched r = [lit "a"; lit "form"; lit "b"]
  ∧ ∃ m, outcome r = inr m.
Proof.
  cbv zeta.
  pose proof (dispatch_policy
    Scripted.text_of (Scripted.generateText (lit " a , form,b "))
    (Scripted.streamText (lit " a , form,b ")) Scripted.generateObject
    Scripted.streamObject Scripted.openai
    Scripted.net0 (lit "hello") (mkExecuteParams (Some true) None None)
    Scripted.store0 eq_refl) as [_ Hmulti].
  destruct (Hmulti eq_refl) as (Hd & _ & _ & Hret).
  split.
  - rewrite Hd. by vm_compute.
  - apply Hret. apply Forall_forall.
    change (Forall (λ n, ready Scripted.net0 (lit "hello") Scripted.store0 n
                         = true) [lit "a"; lit "form"; lit "b"]).
    repeat constructor.
Defined.



Lemma empty_string_counts_as_missing_witness :
  Agent_execute (Scripted.generateText []) Scripted.generateObject
    Scripted.agent3 = ([], inl (MissingParameter TextAgent))
  ∧ Agent_stream (Scripted.streamText []) Scripted.streamObject
      Scripted.agent3 = ([], inl (MissingParameter TextAgent)).
Proof.
  pose proof (empty_string_counts_as_missing
    (Scripted.generateText []) (Scripted.streamText [])
    Scripted.generateObject Scripted.streamObject
    Scripted.agent3 k_prompt) as H.
  destruct H as (He & Hs & _).
  - apply list_elem_of_here.
  - by vm_compute.
  - by split.
Defined.

(** A streaming call: the callback gets the text of the agent one
    fragment at a time, and the result map is empty. *)
Example streaming_run :
  let r := scripted (lit "a") Scripted.net0 (lit "hi")
             (mkExecuteParams None (Some true) (Some Scripted.print))
             Scripted.store0 in
  task_end <$> tasks r
  = [Streamed [lit "r"; lit "e"; lit ":"; lit " "; lit "h"; lit "i"]]
  ∧ outcome r = inr ∅.
Proof. cbv zeta. split; by vm_compute. Qed.

(** One agent registered under two names is updated once for both, and
    both names get its output. *)
Example aliased_agent :
  let net := registerAgent (lit "alias") 0%nat Scripted.net0 in
  let r := scripted (lit "a,alias") net (lit "hi")
             (mkExecuteParams (Some true) None None) Scripted.store0 in
  outcome r = inr {[ lit "a" := OutText (lit "re: hi");
                     lit "alias" := OutText (lit "re: hi") ]}
  ∧ parameters (store r 0%nat)
    = {[ k_prompt := VStr (lit "hi"); k_model := Scripted.M1;
         lit "system" := VStr (lit "be brief") ]}.
Proof. cbv zeta. split; by vm_compute. Qed.

(** Registering a name again replaces its agent and keeps its place. *)
Example register_twice :
  agents (registerAgent (lit "a") 3%nat Scripted.net0)
  = [(lit "a", 3%nat); (lit "b", 1%nat); (lit "form", 2%nat)].
Proof. by vm_compute. Qed.

(** Without streaming, a missing registry entry settles before the failed
    check of an agent dispatched earlier; with streaming the check of
    [stream()] throws at once and the earlier agent settles first. *)
Example rejection_order :
  let r := scripted (lit "b,zzz") Scripted.net1 (lit "hello")
             (mkExecuteParams (Some true) None None) Scripted.store0 in
  let r' := scripted (lit "b,zzz") Scripted.net1 (lit "hello")
              (mkExecuteParams (Some true) (Some true) None)
              Scripted.store0 in
  task_end <$> tasks r
  = [Rejected (MissingParameter TextAgent);
     Thrown (AgentNotRegistered (lit "zzz"))]
  ∧ outcome r = inl (AgentNotRegistered (lit "zzz"))
  ∧ task_end <$> tasks r'
    = [Thrown (MissingParameter TextAgent);
       Thrown (AgentNotRegistered (lit "zzz"))]
  ∧ outcome r' = inl (MissingParameter TextAgent).
Proof. cbv zeta. repeat split; by vm_compute. Qed.

(** ** The further properties on concrete networks *)

Lemma parseAgentNames_listed_witness :
  parseAgentNames (join (lit ", ") [lit "a"; lit "form"; lit "b"])
  = [lit "a"; lit "form"; lit "b"].
Proof.
  apply parseAgentNames_listed; [done|].
  apply Forall_forall.
  repeat constructor; by intros Hin%list_elem_of_In; vm_compute in Hin; intuition.
Defined.

Lemma dispatched_names_clean_witness :
  (comma ∉ lit "form") ∧ trim (lit "form") = lit "form"
  ∧ clean_start (lit "form") = true ∧ clean_end (lit "form") = true.
Proof.
  apply (dispatched_names_clean
    Scripted.text_of (Scripted.generateText (lit " a , form,b "))
    (Scripted.streamText (lit " a , form,b ")) Scripted.generateObject
    Scripted.streamObject Scripted.openai
    Scripted.net0 (lit "hello") (mkExecuteParams (Some true) None None)
    Scripted.store0 (lit "form")).
  vm_compute. apply list_elem_of_further, list_elem_of_here.
Defined.

Lemma generation_calls_are_checked_witness :
  let p : params :=
    {[ k_prompt := VStr (lit "hello"); k_model := Scripted.M2;
       k_schema := Scripted.schema ]} in
  p !! k_prompt = Some (VStr (lit "hello"))
  ∧ truthy (prop p k_model) = true
  ∧ truthy (prop p k_schema) = true.
Proof.
  intros p.
  destruct (generation_calls_are_checked
    Scripted.text_of (Scripted.generateText (lit "form"))
    (Scripted.streamText (lit "form")) Scripted.generateObject
    Scripted.streamObject Scripted.openai
    Scripted.net0 (lit "hello") (mkExecuteParams None (Some true) (Some Scripted.print))
    Scripted.store0
    (mkTask (lit "form") [Call StreamObject p]
       (Streamed [lit "{"; lit "name"; lit "}"]))
    (Call StreamObject p)) as (_ & Hprompt & _ & Hmodel & l & Hl & _ & Hs).
  - vm_compute. apply list_elem_of_here.
  - apply list_elem_of_here.
  - split; [exact Hprompt|]. split; [exact Hmodel|].
    apply Hs. by injection Hl as <-.
Defined.

Lemma unreached_agents_unchanged_witness :
  store (scripted (lit "a,b") Scripted.net0 (lit "hello")
           (mkExecuteParams None None None) Scripted.store0) 1%nat
  = Scripted.agent1.
Proof.
  apply (unreached_agents_unchanged
    Scripted.text_of (Scripted.generateText (lit "a,b"))
    (Scripted.streamText (lit "a,b")) Scripted.generateObject
    Scripted.streamObject Scripted.openai
    Scripted.net0 (lit "hello") (mkExecuteParams None None None)
    Scripted.store0 1%nat).
  intros n Hn.
  assert (n = lit "a") as ->.
  { vm_compute in Hn. by apply list_elem_of_singleton in Hn. }
  by vm_compute.
Defined.

Lemma default_model_is_pinned_witness :
  let after :=
    parameters (store (scripted (lit "b") Scripted.net0 (lit "hello")
                         (mkExecuteParams None None None) Scripted.store0)
                  1%nat) in
  after !! k_model = Some Scripted.M2
  ∧ js_or (prop after k_model) (defaultModel Scripted.net1) = Scripted.M2.
Proof.
  cbv zeta.
  destruct (default_model_is_pinned
    Scripted.text_of (Scripted.generateText (lit "b"))
    (Scripted.streamText (lit "b")) Scripted.generateObject
    Scripted.streamObject Scripted.openai
    Scripted.net0 (lit "hello") (mkExecuteParams None None None)
    Scripted.store0 (lit "b") 1%nat) as [Hmodel Hpin].
  - vm_compute. apply list_elem_of_here.
  - by vm_compute.
  - split; [exact Hmodel|]. exact (Hpin eq_refl Scripted.net1).
Defined.

Lemma rejected_call_is_not_rolled_back_witness :
  let r := scripted (lit "a,zzz") Scripted.net0 (lit "hello")
             (mkExecuteParams (Some true) None None) Scripted.store0 in
  outcome r = inl (AgentNotRegistered (lit "zzz"))
  ∧ parameters (store r 0%nat) !! k_prompt = Some (VStr (lit "hello"))
  ∧ ∃ t c, t ∈ tasks r ∧ task_name t = lit "a" ∧ task_calls t = [c].
Proof.
  cbv zeta.
  assert (outcome (scripted (lit "a,zzz") Scripted.net0 (lit "hello")
                     (mkExecuteParams (Some true) None None) Scripted.store0)
          = inl (AgentNotRegistered (lit "zzz"))) as Hout by (by vm_compute).
  destruct (rejected_call_is_not_rolled_back
    Scripted.text_of (Scripted.generateText (lit "a,zzz"))
    (Scripted.streamText (lit "a,zzz")) Scripted.generateObject
    Scripted.streamObject Scripted.openai
    Scripted.net0 (lit "hello") (mkExecuteParams (Some true) None None)
    Scripted.store0 (AgentNotRegistered (lit "zzz")) (lit "a") 0%nat)
    as [Hstore Hcall].
  - exact Hout.
  - vm_compute. apply list_elem_of_here.
  - by vm_compute.
  - split; [exact Hout|]. split.
    + rewrite Hstore. by vm_compute.
    + destruct Hcall as (t & c & Ht & Hn & Hc & _); [by vm_compute|].
      by exists t, c.
Defined.
